(** * YouTube Auto Videos Tab extension: a model of [src/content.ts]

    The content script classifies the page address with one regular
    expression and one substring test, tries to activate the Videos tab
    of the page, and falls back to rewriting the address after a delay.

    Addresses are JavaScript strings.  The script only compares their
    characters with ASCII literals and with ['/'], so they are modelled
    by [string]; the effects on the page (queries, clicks, the console,
    the location and the timers) are threaded through a small state
    monad over a record [World]. *)

From Stdlib Require Import Bool List ZArith Lia Ascii String.
Import ListNotations.

Local Open Scope string_scope.
Local Open Scope bool_scope.

(** ** Strings *)

Module Str.

(** [s.includes(needle)]: [needle] occurs in [s] at some index. *)
Fixpoint includes (s needle : string) : bool :=
  prefix needle s ||
  match s with
  | EmptyString => false
  | String _ s' => includes s' needle
  end.

(** No character of [s] is [c]. *)
Fixpoint lacks (c : ascii) (s : string) : bool :=
  match s with
  | EmptyString => true
  | String a s' => negb (Ascii.eqb a c) && lacks c s'
  end.

Definition isEmpty (s : string) : bool :=
  match s with
  | EmptyString => true
  | String _ _ => false
  end.

Fixpoint lastChar (s : string) : option ascii :=
  match s with
  | EmptyString => None
  | String c EmptyString => Some c
  | String _ s' => lastChar s'
  end.

(** [s.endsWith(suffix)]: [suffix] is [s] from some index on. *)
Fixpoint endsWith (s suffix : string) : bool :=
  String.eqb s suffix ||
  match s with
  | EmptyString => false
  | String _ s' => endsWith s' suffix
  end.

End Str.

(** ** Regular expressions

    The fragment of the JavaScript pattern language that the script
    uses: literal characters, a negated one-character class, [+],
    alternation, grouping and the end-of-input assertion [$] (no flags,
    so [$] holds at the end of the input only).  [Fail] and [Star] only
    arise while matching. *)

Module Regex.

Inductive regex : Type :=
| Fail
| Eps
| Lit (c : ascii)
| NotChar (c : ascii)
| EndOfInput
| Cat (r1 r2 : regex)
| Alt (r1 r2 : regex)
| Star (r : regex).

(** [r+] *)
Definition Plus (r : regex) : regex := Cat r (Star r).

(** A run of literal characters. *)
Fixpoint lit (s : string) : regex :=
  match s with
  | EmptyString => Eps
  | String c s' => Cat (Lit c) (lit s')
  end.

(** Does [r] match the empty string at the current position?
    [atEnd] tells whether that position is the end of the input. *)
Fixpoint nullable (atEnd : bool) (r : regex) : bool :=
  match r with
  | Fail => false
  | Eps => true
  | Lit _ => false
  | NotChar _ => false
  | EndOfInput => atEnd
  | Cat r1 r2 => nullable atEnd r1 && nullable atEnd r2
  | Alt r1 r2 => nullable atEnd r1 || nullable atEnd r2
  | Star _ => true
  end.

(** What is left of [r] once the character [a] has been consumed. *)
Fixpoint deriv (a : ascii) (r : regex) : regex :=
  match r with
  | Fail => Fail
  | Eps => Fail
  | Lit c => if Ascii.eqb a c then Eps else Fail
  | NotChar c => if Ascii.eqb a c then Fail else Eps
  | EndOfInput => Fail
  | Cat r1 r2 =>
      Alt (Cat (deriv a r1) r2)
          (if nullable false r1 then deriv a r2 else Fail)
  | Alt r1 r2 => Alt (deriv a r1) (deriv a r2)
  | Star r1 => Cat (deriv a r1) (Star r1)
  end.

(** Some match of [r] starts at the beginning of [s]. *)
Fixpoint matchHere (r : regex) (s : string) : bool :=
  match s with
  | EmptyString => nullable true r
  | String a s' => nullable false r || matchHere (deriv a r) s'
  end.

(** [r.test(s)]: some match of [r] starts at some index of [s]. *)
Fixpoint test (r : regex) (s : string) : bool :=
  matchHere r s ||
  match s with
  | EmptyString => false
  | String _ s' => test r s'
  end.

(** The matching relation: [Matches r s rest] when [r] matches [s]
    and [rest] is the input that follows. *)
Inductive Matches : regex -> string -> string -> Prop :=
| MEps rest : Matches Eps "" rest
| MLit c rest : Matches (Lit c) (String c "") rest
| MNotChar c a rest : a <> c -> Matches (NotChar c) (String a "") rest
| MEnd : Matches EndOfInput "" ""
| MCat r1 r2 s1 s2 rest :
    Matches r1 s1 (s2 ++ rest) -> Matches r2 s2 rest ->
    Matches (Cat r1 r2) (s1 ++ s2) rest
| MAltL r1 r2 s rest : Matches r1 s rest -> Matches (Alt r1 r2) s rest
| MAltR r1 r2 s rest : Matches r2 s rest -> Matches (Alt r1 r2) s rest
| MStarNil r rest : Matches (Star r) "" rest
| MStarCons r s1 s2 rest :
    Matches r s1 (s2 ++ rest) -> Matches (Star r) s2 rest ->
    Matches (Star r) (s1 ++ s2) rest.

End Regex.

(** ** The address classifier and rewriter *)

Import Regex.

Definition notSlash : regex := NotChar "/".

(** [/youtube\.com\/((@[^/]+)|(c\/[^/]+)|(channel\/[^/]+)|(user\/[^/]+))$/] *)
Definition channelPattern : regex :=
  Cat (lit "youtube.com/")
      (Cat (Alt (Cat (lit "@") (Plus notSlash))
           (Alt (Cat (lit "c/") (Plus notSlash))
           (Alt (Cat (lit "channel/") (Plus notSlash))
                (Cat (lit "user/") (Plus notSlash)))))
           EndOfInput).

Definition isChannelMainPage (url : string) : bool :=
  test channelPattern url.

(** The shape the pattern describes: the site name and a slash, one of
    the four channel path styles, then an identifier that is not empty
    and holds no slash, up to the end of the address. *)
Definition channelStyles : list string := ["@"; "c/"; "channel/"; "user/"].

Definition isIdentifier (id : string) : bool :=
  negb (Str.isEmpty id) && Str.lacks "/" id.

Definition ChannelShaped (url : string) : Prop :=
  exists pre style id,
    url = pre ++ "youtube.com/" ++ style ++ id /\
    In style channelStyles /\ isIdentifier id = true.

Definition isOnVideosTab (url : string) : bool :=
  Str.includes url "/videos".

Definition getVideosUrl (currentUrl : string) : string :=
  currentUrl ++ "/videos".

(** ** The page: what the script reads and what it does *)

Record Element : Type := mkElement {
  nodeId : nat;
  tagName : string;
  attributes : list (string * string)
}.

(** The function handed to the scheduler at lines 93-99 of
    [content.ts]: a closure whose only free variable is [currentUrl]. *)
Inductive Callback : Type :=
| RetryCallback (currentUrl : string).

(** [querySelector] is the answer of [document.querySelector] for each
    selector text; [clicked] lists, oldest first, the elements whose
    [click()] was called; [console] the argument lists of
    [console.log]; [timers] the calls received by [setTimeout].  What
    the host page does in reaction to a click is not part of the
    script. *)
Record World : Type := mkWorld {
  querySelector : string -> option Element;
  location_href : string;
  clicked : list Element;
  console : list (list string);
  timers : list (Callback * Z)
}.

Definition M (A : Type) : Type := World -> A * World.

Definition ret {A : Type} (a : A) : M A := fun w => (a, w).

Definition bind {A B : Type} (m : M A) (k : A -> M B) : M B :=
  fun w => let (a, w') := m w in k a w'.

Notation "x <- c1 ;; c2" := (bind c1 (fun x => c2))
  (at level 61, c1 at next level, right associativity).
Notation "c1 ;; c2" := (bind c1 (fun _ => c2))
  (at level 61, right associativity).

Definition document_querySelector (selector : string) : M (option Element) :=
  fun w => (querySelector w selector, w).

Definition click (tab : Element) : M unit :=
  fun w => (tt, mkWorld (querySelector w) (location_href w)
                        (clicked w ++ [tab]) (console w) (timers w)).

Definition console_log (args : list string) : M unit :=
  fun w => (tt, mkWorld (querySelector w) (location_href w)
                        (clicked w) (console w ++ [args]) (timers w)).

Definition get_location_href : M string :=
  fun w => (location_href w, w).

Definition set_location_href (url : string) : M unit :=
  fun w => (tt, mkWorld (querySelector w) url
                        (clicked w) (console w) (timers w)).

(** A scheduler takes a callback and a delay in milliseconds; the
    handle it returns is dropped by the script. *)
Definition Scheduler : Type := Callback -> Z -> M unit.

(** The platform's [setTimeout]: the call is queued. *)
Definition setTimeout : Scheduler :=
  fun cb delay w => (tt, mkWorld (querySelector w) (location_href w)
                                 (clicked w) (console w)
                                 (timers w ++ [(cb, delay)])).

(** ** The tab activator *)

(** The double-quote character of the selector texts. *)
Definition dq : string := String (ascii_of_nat 34) EmptyString.

(** [a[href*=/videos][role=tab]], [yt-tab-shape[tab-title*=Videos] a]
    and [tp-yt-paper-tab a[href*=/videos]], each attribute value
    between double quotes. *)
Definition selectors : list string :=
  [ "a[href*=" ++ dq ++ "/videos" ++ dq ++ "][role=" ++ dq ++ "tab" ++ dq ++ "]";
    "yt-tab-shape[tab-title*=" ++ dq ++ "Videos" ++ dq ++ "] a";
    "tp-yt-paper-tab a[href*=" ++ dq ++ "/videos" ++ dq ++ "]" ].

(** The [for] loop of [clickVideosTab] over the selectors that remain. *)
Fixpoint clickFirst (sels : list string) : M bool :=
  match sels with
  | [] => ret false
  | selector :: rest =>
      tab <- document_querySelector selector ;;
      match tab with
      | Some t =>
          click t ;;
          console_log ["[YouTube Videos Tab] Clicked Videos tab"] ;;
          ret true
      | None => clickFirst rest
      end
  end.

Definition clickVideosTab : M bool := clickFirst selectors.

(** ** The address rewriter, with its effect *)

Definition navigateToVideosTab (currentUrl : string) : M unit :=
  let videosUrl := getVideosUrl currentUrl in
  set_location_href videosUrl ;;
  console_log ["[YouTube Videos Tab] Navigated to:"; videosUrl].

(** ** The orchestrator *)

(** Running the closure scheduled by [switchToVideosTab]. *)
Definition runCallback (cb : Callback) : M unit :=
  match cb with
  | RetryCallback currentUrl =>
      again <- clickVideosTab ;;
      if again then ret tt
      else navigateToVideosTab currentUrl
  end.

Definition switchToVideosTab (currentUrl : string) (setTimeoutFn : Scheduler)
  : M unit :=
  if negb (isChannelMainPage currentUrl) || isOnVideosTab currentUrl then
    ret tt
  else
    console_log ["[YouTube Videos Tab] Channel main page detected"] ;;
    clicked <- clickVideosTab ;;
    if negb clicked then
      setTimeoutFn (RetryCallback currentUrl) 500%Z
    else ret tt.

(** ** The change observer *)

(** [lastUrl] is the variable of the script.  [acted] is a ghost
    history: the addresses [switchToVideosTab] was called with from the
    observer, most recent first. *)
Record Observer : Type := mkObserver {
  lastUrl : string;
  acted : list string
}.

(** A call [switchToVideosTab(url)] made by the observer, with the
    default scheduler. *)
Definition callSwitchToVideosTab (url : string) (obs : Observer) : M Observer :=
  switchToVideosTab url setTimeout ;;
  ret (mkObserver (lastUrl obs) (url :: acted obs)).

Definition handleUrlChange (obs : Observer) : M Observer :=
  currentUrl <- get_location_href ;;
  if negb (String.eqb currentUrl (lastUrl obs)) then
    let obs1 := mkObserver currentUrl (acted obs) in
    console_log ["[YouTube Videos Tab] URL changed:"; currentUrl] ;;
    callSwitchToVideosTab currentUrl obs1
  else ret obs.

(** [observer.observe(target, options)]: it throws a [TypeError] when
    the target is no node, which is the case of [document.body] in a
    document that has no body yet; [None] stands for the throw.  With
    a node, [handleUrlChange] is registered; its notifications are the
    steps of [Reachable] below. *)
Definition observer_observe (target : option Element) : M (option unit) :=
  match target with
  | Some _ => ret (Some tt)
  | None => ret None
  end.

(** The body of the script in a browser.  [body] is what
    [document.body] holds when the script runs.  The result is the
    observer that has been registered, or [None] when the script
    stopped on the throw of [observe], before its last line. *)
Definition attach (body : option Element) : M (option Observer) :=
  href <- get_location_href ;;
  let obs := mkObserver href [] in
  href' <- get_location_href ;;
  obs1 <- callSwitchToVideosTab href' obs ;;
  observing <- observer_observe body ;;
  match observing with
  | None => ret None
  | Some _ =>
      console_log ["[YouTube Videos Tab] Extension initialized"] ;;
      ret (Some obs1)
  end.

(** The states the observer can be in, once it has been registered:
    the page, the user and the timers may change the world in any way
    between two notifications. *)
Inductive Reachable : Observer -> World -> Prop :=
| ReachAttach body w0 obs w1 :
    attach body w0 = (Some obs, w1) -> Reachable obs w1
| ReachEnvironment obs w w' :
    Reachable obs w -> Reachable obs w'
| ReachNotify obs w :
    Reachable obs w ->
    Reachable (fst (handleUrlChange obs w)) (snd (handleUrlChange obs w)).

(** A Videos tab element is in the page: some selector has an answer. *)
Definition videosTabPresent (w : World) : bool :=
  existsb (fun selector =>
             match querySelector w selector with
             | Some _ => true
             | None => false
             end) selectors.

(** The element [clickVideosTab] would find. *)
Fixpoint firstMatch (w : World) (sels : list string) : option Element :=
  match sels with
  | [] => None
  | selector :: rest =>
      match querySelector w selector with
      | Some t => Some t
      | None => firstMatch w rest
      end
  end.

(** ** The host of an address

    Used to say that an address belongs to the host site or not: the
    text between the scheme separator and the first of ['/'], ['?'] and
    ['#'] is the host, and it is the site's when it is [youtube.com] or
    ends in [.youtube.com]. *)

Module Url.

Fixpoint afterScheme (s : string) : option string :=
  match s with
  | EmptyString => None
  | String _ s' =>
      if prefix "://" s then Some (substring 3 (length s) s)
      else afterScheme s'
  end.

Fixpoint upToDelimiter (s : string) : string :=
  match s with
  | EmptyString => EmptyString
  | String c s' =>
      if Ascii.eqb c "/" || Ascii.eqb c "?" || Ascii.eqb c "#"
      then EmptyString
      else String c (upToDelimiter s')
  end.

Definition host (url : string) : string :=
  upToDelimiter (match afterScheme url with
                 | Some rest => rest
                 | None => url
                 end).

Definition onHostSite (url : string) : bool :=
  String.eqb (host url) "youtube.com" ||
  Str.endsWith (host url) ".youtube.com".

End Url.

(** ** Sample pages *)

(** A page in which no selector has an answer. *)
Definition blankPage (href : string) : World :=
  mkWorld (fun _ => None) href [] [] [].

Definition videosAnchor : Element :=
  mkElement 1 "a" [("href", "/@mkbhd/videos"); ("role", "tab")].

(** A page whose Videos tab answers the first selector. *)
Definition pageWithTab (href : string) : World :=
  mkWorld (fun selector =>
             if String.eqb selector (hd "" selectors)
             then Some videosAnchor else None)
          href [] [] [].

(** The world once a tab has been activated by [clickVideosTab]. *)
Definition afterClick (t : Element) (w : World) : World :=
  mkWorld (querySelector w) (location_href w) (clicked w ++ [t])
          (console w ++ [["[YouTube Videos Tab] Clicked Videos tab"]])
          (timers w).

Definition detected (w : World) : World :=
  snd (console_log ["[YouTube Videos Tab] Channel main page detected"] w).

(** The body element of a page that has one. *)
Definition bodyElement : Element := mkElement 0 "body" [].

(** An address on a domain that is not the host site's. *)
Definition lookalikeAddress : string := "https://notyoutube.com/@channel".

(** A channel whose handle ends in the site name, and a segment after it. *)
Definition dottedHandleAddress : string :=
  "https://www.youtube.com/@my.youtube.com".

(** ** Auxiliary definitions for the properties of the whole script *)

(** The selector tried at position [n] of [clickVideosTab]'s list. *)
Definition selectorAt (n : nat) : string := nth n selectors "".

(** A page whose only answer is the element [t], to the selector at
    position [n]. *)
Definition pageAnswering (n : nat) (t : Element) (href : string) : World :=
  mkWorld (fun selector =>
             if String.eqb selector (selectorAt n) then Some t else None)
          href [] [] [].

(** No two neighbours of the list are equal. *)
Fixpoint adjacentDistinct (l : list string) : bool :=
  match l with
  | [] => true
  | x :: rest =>
      match rest with
      | [] => true
      | y :: _ => negb (String.eqb x y) && adjacentDistinct rest
      end
  end.

(** ** Facts about strings *)

Module StrFacts.

Lemma append_nil_r (s : string) : s ++ "" = s.
Proof. induction s as [|a s IH]; simpl; [reflexivity | now rewrite IH]. Qed.

Lemma append_assoc (a b c : string) : (a ++ b) ++ c = a ++ (b ++ c).
Proof. induction a as [|x a IH]; simpl; [reflexivity | now rewrite IH]. Qed.

Lemma append_eq_nil (a b : string) : a ++ b = "" -> a = "" /\ b = "".
Proof. destruct a; simpl; [auto | discriminate]. Qed.

Lemma append_cons_inv (a b : string) (c : ascii) (s : string) :
  a ++ b = String c s ->
  (a = "" /\ b = String c s) \/ (exists a', a = String c a' /\ s = a' ++ b).
Proof.
  destruct a as [|x a]; simpl; intros H.
  - left; auto.
  - right; injection H as -> <-. eauto.
Qed.

Lemma append_length (a b : string) :
  length (a ++ b) = (length a + length b)%nat.
Proof. induction a as [|x a IH]; simpl; [reflexivity | now rewrite IH]. Qed.

(** Two splits of one string at the same length are the same split. *)
Lemma append_inj_r (a a' b b' : string) :
  a ++ b = a' ++ b' -> length b = length b' -> a = a' /\ b = b'.
Proof.
  revert a'; induction a as [|x a IH]; intros [|y a'] H L; simpl in *.
  - auto.
  - exfalso. subst b. simpl in L. rewrite append_length in L. lia.
  - exfalso. subst b'. simpl in L. rewrite append_length in L. lia.
  - injection H as -> H. destruct (IH _ H L) as [-> ->]. auto.
Qed.

Lemma prefix_spec (p s : string) :
  prefix p s = true <-> exists t, s = p ++ t.
Proof.
  revert s; induction p as [|a p IH]; intros [|b s]; simpl.
  - split; [intros _; exists ""; reflexivity | reflexivity].
  - split; [intros _; exists (String b s); reflexivity | reflexivity].
  - split; [discriminate | intros [t H]; discriminate].
  - destruct (ascii_dec a b) as [->|N].
    + rewrite IH. split; intros [t H]; exists t.
      * now rewrite H.
      * now injection H.
    + split; [discriminate | intros [t H]; injection H as E _; congruence].
Qed.

Lemma includes_spec (s needle : string) :
  Str.includes s needle = true <->
  exists pre post, s = pre ++ needle ++ post.
Proof.
  induction s as [|a s IH]; cbn [Str.includes].
  - rewrite orb_false_r, prefix_spec. split.
    + intros [t H]. exists "", t. exact H.
    + intros (pre & post & H). symmetry in H.
      apply append_eq_nil in H as [-> H]. exists post. now rewrite H.
  - rewrite orb_true_iff, prefix_spec, IH. split.
    + intros [[t H] | (pre & post & H)].
      * exists "", t. exact H.
      * exists (String a pre), post. simpl. now rewrite H.
    + intros (pre & post & H). destruct pre as [|b pre]; simpl in H.
      * left. exists post. exact H.
      * right. injection H as _ H. eauto.
Qed.

Lemma endsWith_spec (s suffix : string) :
  Str.endsWith s suffix = true <-> exists pre, s = pre ++ suffix.
Proof.
  induction s as [|a s IH]; cbn [Str.endsWith].
  - rewrite orb_false_r, String.eqb_eq. split.
    + intros <-. now exists "".
    + intros [pre H]. symmetry in H. now apply append_eq_nil in H as [_ ->].
  - rewrite orb_true_iff, String.eqb_eq, IH. split.
    + intros [<- | [pre ->]]; [now exists "" | now exists (String a pre)].
    + intros [[|b pre] H]; simpl in H.
      * left. now symmetry.
      * right. injection H as _ ->. eauto.
Qed.

Lemma lacks_append (c : ascii) (a b : string) :
  Str.lacks c (a ++ b) = Str.lacks c a && Str.lacks c b.
Proof.
  induction a as [|x a IH]; simpl; [reflexivity|].
  now rewrite IH, andb_assoc.
Qed.

(** The text after the last [c] of a string is determined. *)
Lemma last_segment_unique (c : ascii) (x x' y y' : string) :
  x ++ String c y = x' ++ String c y' ->
  Str.lacks c y = true -> Str.lacks c y' = true ->
  x = x' /\ y = y'.
Proof.
  revert x'; induction x as [|a x IH]; intros [|a' x'] H Ly Ly'; simpl in H.
  - injection H as ->. auto.
  - injection H as <- ->. rewrite lacks_append in Ly. simpl in Ly.
    rewrite Ascii.eqb_refl in Ly. simpl in Ly.
    now rewrite andb_false_r in Ly.
  - injection H as -> <-. rewrite lacks_append in Ly'. simpl in Ly'.
    rewrite Ascii.eqb_refl in Ly'. simpl in Ly'.
    now rewrite andb_false_r in Ly'.
  - injection H as -> H. destruct (IH _ H Ly Ly') as [-> ->]. auto.
Qed.

Lemma lastChar_append (x s : string) :
  s <> "" -> Str.lastChar (x ++ s) = Str.lastChar s.
Proof.
  intros N. induction x as [|a x IH]; [reflexivity|].
  cbn [append Str.lastChar]. rewrite IH.
  destruct (x ++ s) eqn:E; [|reflexivity].
  apply append_eq_nil in E as [_ ->]. contradiction.
Qed.

End StrFacts.

(** ** The matcher computes the matching relation *)

Module RegexFacts.
Import StrFacts.

Lemma Matches_nil_nullable (r : regex) (s rest : string) :
  Matches r s rest -> s = "" -> nullable (Str.isEmpty rest) r = true.
Proof.
  induction 1 as [ | | | | r1 r2 s1 s2 rest _ IH1 _ IH2
                   | r1 r2 s rest _ IH | r1 r2 s rest _ IH
                   | | r s1 s2 rest _ _ _ _ ]; intros E; simpl;
    try reflexivity; try discriminate.
  - apply append_eq_nil in E as [-> ->]. simpl in IH1.
    rewrite IH1, IH2 by reflexivity. reflexivity.
  - rewrite IH by assumption. reflexivity.
  - rewrite IH by assumption. apply orb_true_r.
Qed.

Lemma nullable_Matches (r : regex) (rest : string) :
  nullable (Str.isEmpty rest) r = true -> Matches r "" rest.
Proof.
  induction r as [ | | c | c | | r1 IH1 r2 IH2 | r1 IH1 r2 IH2 | r IH ];
    simpl; intros H; try discriminate.
  - constructor.
  - destruct rest; [constructor | discriminate].
  - apply andb_true_iff in H as [H1 H2].
    change "" with ("" ++ ""). constructor; simpl; auto.
  - apply orb_true_iff in H as [H | H].
    + apply MAltL; auto.
    + apply MAltR; auto.
  - constructor.
Qed.

Lemma nullable_spec (r : regex) (rest : string) :
  nullable (Str.isEmpty rest) r = true <-> Matches r "" rest.
Proof.
  split; [apply nullable_Matches | intros H; now apply Matches_nil_nullable with ""].
Qed.

Lemma deriv_sound (a : ascii) (r : regex) :
  forall s rest, Matches (deriv a r) s rest -> Matches r (String a s) rest.
Proof.
  induction r as [ | | c | c | | r1 IH1 r2 IH2 | r1 IH1 r2 IH2 | r IH ];
    simpl; intros s rest H.
  - inversion H.
  - inversion H.
  - destruct (Ascii.eqb_spec a c) as [->|N]; inversion H; subst. constructor.
  - destruct (Ascii.eqb_spec a c) as [->|N]; inversion H; subst.
    constructor; assumption.
  - inversion H.
  - inversion H as [ | | | | | ? ? ? ? H' | ? ? ? ? H' | | ]; subst.
    + inversion H' as [ | | | | ? ? s1 s2 ? Ha Hb | | | | ]; subst.
      change (String a (s1 ++ s2)) with (String a s1 ++ s2).
      constructor; auto.
    + destruct (nullable false r1) eqn:N; [|inversion H'].
      change (String a s) with ("" ++ String a s).
      constructor; [|auto].
      apply nullable_Matches. simpl. exact N.
  - inversion H; subst; [apply MAltL | apply MAltR]; auto.
  - inversion H as [ | | | | ? ? s1 s2 ? Ha Hb | | | | ]; subst.
    change (String a (s1 ++ s2)) with (String a s1 ++ s2).
    constructor; auto.
Qed.

Lemma deriv_complete (r : regex) (s0 rest : string) :
  Matches r s0 rest ->
  forall a s, s0 = String a s -> Matches (deriv a r) s rest.
Proof.
  induction 1 as [ | c rest | c b rest N | | r1 r2 s1 s2 rest H1 IH1 H2 IH2
                   | r1 r2 s rest _ IH | r1 r2 s rest _ IH
                   | | r s1 s2 rest H1 IH1 H2 IH2 ]; intros a s' E;
    try discriminate; simpl.
  - injection E as -> <-. rewrite Ascii.eqb_refl. constructor.
  - injection E as -> <-.
    destruct (Ascii.eqb_spec a c); [contradiction | constructor].
  - apply append_cons_inv in E as [[-> E] | (s1' & -> & ->)].
    + apply MAltR.
      apply Matches_nil_nullable with (s := "") in H1; [|reflexivity].
      rewrite E in H1. simpl in H1. rewrite H1. auto.
    + apply MAltL. constructor; auto.
  - apply MAltL; auto.
  - apply MAltR; auto.
  - apply append_cons_inv in E as [[-> E] | (s1' & -> & ->)].
    + apply (IH2 _ _ E).
    + constructor; auto.
Qed.

Lemma deriv_spec (a : ascii) (r : regex) (s rest : string) :
  Matches (deriv a r) s rest <-> Matches r (String a s) rest.
Proof.
  split; [apply deriv_sound | intros H; now apply deriv_complete with (String a s)].
Qed.

Lemma matchHere_spec (r : regex) (s : string) :
  matchHere r s = true <->
  exists s1 rest, s = s1 ++ rest /\ Matches r s1 rest.
Proof.
  revert r; induction s as [|a s IH]; intros r; simpl.
  - change true with (Str.isEmpty "") at 1. rewrite nullable_spec. split.
    + intros H. exists "", "". auto.
    + intros (s1 & rest & E & H). symmetry in E.
      apply append_eq_nil in E as [-> ->]. exact H.
  - rewrite orb_true_iff, IH.
    change false with (Str.isEmpty (String a s)). rewrite nullable_spec.
    split.
    + intros [H | (s1 & rest & -> & H)].
      * exists "", (String a s). auto.
      * exists (String a s1), rest. split; [reflexivity|].
        now apply deriv_spec.
    + intros (s1 & rest & E & H). symmetry in E.
      apply append_cons_inv in E as [[-> ->] | (s1' & -> & ->)].
      * left. exact H.
      * right. exists s1', rest. split; [reflexivity|].
        now apply deriv_spec.
Qed.

(** [test] holds exactly when some part of the input matches. *)
Lemma test_spec (r : regex) (s : string) :
  test r s = true <->
  exists pre s1 rest, s = pre ++ s1 ++ rest /\ Matches r s1 rest.
Proof.
  induction s as [|a s IH]; cbn [test].
  - rewrite orb_false_r, matchHere_spec. split.
    + intros (s1 & rest & E & H). exists "", s1, rest. auto.
    + intros (pre & s1 & rest & E & H). symmetry in E.
      apply append_eq_nil in E as [-> E]. exists s1, rest. auto.
  - rewrite orb_true_iff, matchHere_spec, IH. split.
    + intros [(s1 & rest & E & H) | (pre & s1 & rest & E & H)].
      * exists "", s1, rest. auto.
      * exists (String a pre), s1, rest. simpl. rewrite E. auto.
    + intros (pre & s1 & rest & E & H). destruct pre as [|b pre]; simpl in E.
      * left. eauto.
      * right. injection E as _ E. eauto.
Qed.

Lemma Matches_Cat (r1 r2 : regex) (s rest : string) :
  Matches (Cat r1 r2) s rest <->
  exists s1 s2,
    s = s1 ++ s2 /\ Matches r1 s1 (s2 ++ rest) /\ Matches r2 s2 rest.
Proof.
  split.
  - intros H. inversion H; subst. eauto.
  - intros (s1 & s2 & -> & H1 & H2). now constructor.
Qed.

Lemma Matches_Alt (r1 r2 : regex) (s rest : string) :
  Matches (Alt r1 r2) s rest <-> Matches r1 s rest \/ Matches r2 s rest.
Proof.
  split.
  - intros H. inversion H; subst; auto.
  - intros [H | H]; [now apply MAltL | now apply MAltR].
Qed.

Lemma Matches_EndOfInput (s rest : string) :
  Matches EndOfInput s rest <-> s = "" /\ rest = "".
Proof.
  split.
  - intros H. inversion H; subst; auto.
  - intros [-> ->]. constructor.
Qed.

Lemma Matches_lit (x s rest : string) :
  Matches (lit x) s rest <-> s = x.
Proof.
  revert s rest; induction x as [|c x IH]; intros s rest; simpl.
  - split; [intros H; now inversion H | intros ->; constructor].
  - split.
    + intros H. inversion H as [ | | | | ? ? s1 s2 ? Ha Hb | | | | ]; subst.
      inversion Ha; subst. apply IH in Hb. subst. reflexivity.
    + intros ->. change (String c x) with (String c "" ++ x).
      constructor; [constructor | now apply IH].
Qed.

Lemma Matches_Star_NotChar (c : ascii) (s rest : string) :
  Matches (Star (NotChar c)) s rest <-> Str.lacks c s = true.
Proof.
  split.
  - intros H. remember (Star (NotChar c)) as r eqn:R.
    induction H as [ | | | | | | | | r s1 s2 rest H1 _ H2 IH2 ];
      try discriminate; [reflexivity|].
    injection R as ->. inversion H1 as [ | | ? a ? N | | | | | | ]; subst.
    simpl. rewrite IH2 by reflexivity.
    destruct (Ascii.eqb_spec a c); [contradiction | reflexivity].
  - revert rest; induction s as [|a s IH]; intros rest H; simpl in H.
    + constructor.
    + apply andb_true_iff in H as [N L].
      change (String a s) with (String a "" ++ s).
      constructor; [|auto]. constructor.
      destruct (Ascii.eqb_spec a c); [discriminate | assumption].
Qed.

Lemma Matches_Plus_NotChar (c : ascii) (s rest : string) :
  Matches (Plus (NotChar c)) s rest <->
  s <> "" /\ Str.lacks c s = true.
Proof.
  unfold Plus. split.
  - intros H. inversion H as [ | | | | ? ? s1 s2 ? Ha Hb | | | | ]; subst.
    inversion Ha as [ | | ? a ? N | | | | | | ]; subst.
    apply Matches_Star_NotChar in Hb. simpl. split; [discriminate|].
    rewrite Hb. destruct (Ascii.eqb_spec a c); [contradiction | reflexivity].
  - intros [N L]. destruct s as [|a s]; [contradiction|]. simpl in L.
    apply andb_true_iff in L as [L1 L2].
    change (String a s) with (String a "" ++ s).
    constructor; [|now apply Matches_Star_NotChar]. constructor.
    destruct (Ascii.eqb_spec a c); [discriminate | assumption].
Qed.

End RegexFacts.

(** ** The address classifier *)

Module ClassifierFacts.
Import StrFacts RegexFacts.

Lemma isIdentifier_spec (id : string) :
  isIdentifier id = true <-> id <> "" /\ Str.lacks "/" id = true.
Proof.
  unfold isIdentifier. rewrite andb_true_iff.
  destruct id; simpl; intuition congruence.
Qed.

Lemma Matches_style (style s rest : string) :
  Matches (Cat (lit style) (Plus notSlash)) s rest <->
  exists id, s = style ++ id /\ isIdentifier id = true.
Proof.
  rewrite Matches_Cat. split.
  - intros (s1 & s2 & -> & Ha & Hb).
    apply Matches_lit in Ha. apply Matches_Plus_NotChar in Hb. subst.
    exists s2. split; [reflexivity | now apply isIdentifier_spec].
  - intros (id & -> & N). exists style, id. split; [reflexivity|]. split.
    + now apply Matches_lit.
    + now apply Matches_Plus_NotChar, isIdentifier_spec.
Qed.

Lemma Matches_channelPattern (s rest : string) :
  Matches channelPattern s rest <->
  rest = "" /\
  exists style id,
    s = "youtube.com/" ++ style ++ id /\
    In style channelStyles /\ isIdentifier id = true.
Proof.
  unfold channelPattern. rewrite Matches_Cat. split.
  - intros (s1 & s2 & -> & Ha & Hb).
    apply Matches_lit in Ha. subst s1.
    apply Matches_Cat in Hb as (s3 & s4 & -> & Hc & Hd).
    apply Matches_EndOfInput in Hd as [-> ->]. split; [reflexivity|].
    rewrite append_nil_r.
    repeat rewrite Matches_Alt in Hc. repeat rewrite Matches_style in Hc.
    unfold channelStyles.
    destruct Hc as [H | [H | [H | H]]]; destruct H as (id & -> & I);
      eexists _, id; (split; [reflexivity | split; [simpl; auto 6 | exact I]]).
  - intros (-> & style & id & -> & S & I).
    exists "youtube.com/", (style ++ id). split; [reflexivity|].
    split; [now apply Matches_lit|].
    apply Matches_Cat. exists (style ++ id), "".
    split; [now rewrite append_nil_r|].
    split; [|now apply Matches_EndOfInput].
    repeat rewrite Matches_Alt. repeat rewrite Matches_style.
    simpl in S. destruct S as [<- | [<- | [<- | [<- | []]]]]; eauto 6.
Qed.

(** The pattern accepts exactly the addresses of the shape. *)
Lemma isChannelMainPage_spec (url : string) :
  isChannelMainPage url = true <-> ChannelShaped url.
Proof.
  unfold isChannelMainPage, ChannelShaped. rewrite test_spec. split.
  - intros (pre & s1 & rest & -> & H).
    apply Matches_channelPattern in H as (-> & style & id & -> & S & I).
    exists pre, style, id. rewrite append_nil_r.
    split; [reflexivity | auto].
  - intros (pre & style & id & -> & S & I).
    exists pre, ("youtube.com/" ++ style ++ id), "". split.
    + now rewrite append_nil_r.
    + apply Matches_channelPattern. split; [reflexivity|].
      exists style, id. split; [reflexivity | auto].
Qed.

Lemma style_cases (style : string) :
  In style channelStyles ->
  style = "@" \/ style = "c/" \/ style = "channel/" \/ style = "user/".
Proof. simpl. intuition auto. Qed.

(** An address of the shape, split at its last slash. *)
Lemma ChannelShaped_last_slash (url : string) :
  ChannelShaped url ->
  exists front seg,
    url = front ++ String "/" seg /\ Str.lacks "/" seg = true /\
    ((Str.lastChar front = Some "m"%char /\ exists id, seg = String "@" id) \/
     (Str.lastChar front <> Some "m"%char /\ seg <> "")).
Proof.
  intros (pre & style & id & -> & S & I).
  apply isIdentifier_spec in I as [N L].
  apply style_cases in S as [-> | [-> | [-> | ->]]].
  - exists (pre ++ "youtube.com"), (String "@" id).
    split; [now rewrite append_assoc|].
    split; [simpl; exact L|]. left.
    rewrite lastChar_append by discriminate. split; [reflexivity | eauto].
  - exists (pre ++ "youtube.com/c"), id.
    split; [now rewrite append_assoc|]. split; [exact L|]. right.
    rewrite lastChar_append by discriminate. split; [discriminate | exact N].
  - exists (pre ++ "youtube.com/channel"), id.
    split; [now rewrite append_assoc|]. split; [exact L|]. right.
    rewrite lastChar_append by discriminate. split; [discriminate | exact N].
  - exists (pre ++ "youtube.com/user"), id.
    split; [now rewrite append_assoc|]. split; [exact L|]. right.
    rewrite lastChar_append by discriminate. split; [discriminate | exact N].
Qed.

(** Right after the site name, a segment that is not a handle is not
    the end of an address of the shape. *)
Lemma not_shaped_after_site (pre k : string) :
  Str.lacks "/" k = true -> prefix "@" k = false ->
  ~ ChannelShaped (pre ++ "youtube.com/" ++ k).
Proof.
  intros Lk Pk Ha.
  apply ChannelShaped_last_slash in Ha
    as (front & s & E & Lf & [[Hm [i ->]] | [Hm Hn]]);
    replace (pre ++ "youtube.com/" ++ k)
      with ((pre ++ "youtube.com") ++ String "/" k) in E
      by now rewrite append_assoc.
  - apply last_segment_unique in E as [_ ->]; [| exact Lk | exact Lf].
    simpl in Pk. destruct i; discriminate.
  - apply last_segment_unique in E as [<- _]; [| exact Lk | exact Lf].
    apply Hm. now rewrite lastChar_append.
Qed.

(** When does a segment appended to an address of the shape give an
    address of the shape again?  Only when the segment is a handle and
    the address ends in the site name. *)
Lemma ChannelShaped_sub_path (a seg : string) :
  ChannelShaped a -> Str.lacks "/" seg = true ->
  (ChannelShaped (a ++ "/" ++ seg) <->
   (exists p, a = p ++ "youtube.com") /\
   (exists id, seg = "@" ++ id /\ id <> "")).
Proof.
  intros Ha Ls. split.
  - intros (pre & style & id & E & S & I).
    apply isIdentifier_spec in I as [N L].
    apply style_cases in S as [-> | [-> | [-> | ->]]].
    + replace (pre ++ "youtube.com/" ++ "@" ++ id)
        with ((pre ++ "youtube.com") ++ String "/" (String "@" id)) in E
        by now rewrite append_assoc.
      apply last_segment_unique in E as [-> ->]; [| exact Ls | exact L].
      split; [now exists pre | exists id; split; [reflexivity | exact N]].
    + exfalso.
      replace (pre ++ "youtube.com/" ++ "c/" ++ id)
        with ((pre ++ "youtube.com/" ++ "c") ++ String "/" id) in E
        by now rewrite append_assoc.
      apply last_segment_unique in E as [-> ->]; [| exact Ls | exact L].
      now apply not_shaped_after_site in Ha.
    + exfalso.
      replace (pre ++ "youtube.com/" ++ "channel/" ++ id)
        with ((pre ++ "youtube.com/" ++ "channel") ++ String "/" id) in E
        by now rewrite append_assoc.
      apply last_segment_unique in E as [-> ->]; [| exact Ls | exact L].
      now apply not_shaped_after_site in Ha.
    + exfalso.
      replace (pre ++ "youtube.com/" ++ "user/" ++ id)
        with ((pre ++ "youtube.com/" ++ "user") ++ String "/" id) in E
        by now rewrite append_assoc.
      apply last_segment_unique in E as [-> ->]; [| exact Ls | exact L].
      now apply not_shaped_after_site in Ha.
  - intros [[p ->] (id & -> & N)].
    exists p, "@", id. split; [now rewrite append_assoc|].
    split; [simpl; auto|]. apply isIdentifier_spec. split; [exact N|].
    simpl in Ls. exact Ls.
Qed.

End ClassifierFacts.

(** ** The tab activator and the orchestrator *)

Module FlowFacts.

Lemma firstMatch_None (w : World) (sels : list string) :
  firstMatch w sels = None <->
  existsb (fun selector =>
             match querySelector w selector with
             | Some _ => true
             | None => false
             end) sels = false.
Proof.
  induction sels as [|sel rest IH]; simpl; [tauto|].
  destruct (querySelector w sel); simpl; [split; discriminate | exact IH].
Qed.

Lemma clickFirst_firstMatch (w : World) (sels : list string) :
  clickFirst sels w =
  match firstMatch w sels with
  | Some t => (true, afterClick t w)
  | None => (false, w)
  end.
Proof.
  induction sels as [|sel rest IH]; simpl; [reflexivity|].
  unfold bind, document_querySelector at 1.
  destruct (querySelector w sel) as [t|]; [reflexivity | exact IH].
Qed.

Lemma clickVideosTab_absent (w : World) :
  videosTabPresent w = false -> clickVideosTab w = (false, w).
Proof.
  intros H. apply firstMatch_None in H.
  unfold clickVideosTab. now rewrite clickFirst_firstMatch, H.
Qed.

Lemma clickVideosTab_present (w : World) :
  videosTabPresent w = true ->
  exists t, firstMatch w selectors = Some t /\
            clickVideosTab w = (true, afterClick t w).
Proof.
  intros H. unfold clickVideosTab. rewrite clickFirst_firstMatch.
  destruct (firstMatch w selectors) as [t|] eqn:E; [eauto|].
  apply firstMatch_None in E. unfold videosTabPresent in H. congruence.
Qed.

(** An address that is not eligible: nothing happens, whatever the
    scheduler. *)
Lemma switchToVideosTab_ineligible (url : string) (sched : Scheduler) (w : World) :
  isChannelMainPage url = false \/ isOnVideosTab url = true ->
  switchToVideosTab url sched w = (tt, w).
Proof.
  intros H. unfold switchToVideosTab.
  destruct H as [-> | ->]; [reflexivity | now rewrite orb_true_r].
Qed.

Lemma switchToVideosTab_eligible_absent (url : string) (sched : Scheduler) (w : World) :
  isChannelMainPage url = true -> isOnVideosTab url = false ->
  videosTabPresent w = false ->
  switchToVideosTab url sched w = sched (RetryCallback url) 500%Z (detected w).
Proof.
  intros Hc Hv Ht. unfold switchToVideosTab. rewrite Hc, Hv. simpl.
  unfold bind at 1. cbn [console_log].
  unfold bind. rewrite clickVideosTab_absent by exact Ht. reflexivity.
Qed.

Lemma switchToVideosTab_eligible_present (url : string) (sched : Scheduler)
      (w : World) (t : Element) :
  isChannelMainPage url = true -> isOnVideosTab url = false ->
  firstMatch w selectors = Some t ->
  switchToVideosTab url sched w = (tt, afterClick t (detected w)).
Proof.
  intros Hc Hv Ht. unfold switchToVideosTab. rewrite Hc, Hv. simpl.
  unfold bind at 1. cbn [console_log].
  unfold bind, clickVideosTab. rewrite clickFirst_firstMatch.
  change (firstMatch _ selectors) with (firstMatch w selectors).
  rewrite Ht. reflexivity.
Qed.

Lemma runCallback_absent (url : string) (w : World) :
  videosTabPresent w = false ->
  runCallback (RetryCallback url) w = navigateToVideosTab url w.
Proof.
  intros H. unfold runCallback, bind.
  now rewrite clickVideosTab_absent by exact H.
Qed.

Lemma runCallback_present (url : string) (w : World) (t : Element) :
  firstMatch w selectors = Some t ->
  runCallback (RetryCallback url) w = (tt, afterClick t w).
Proof.
  intros H. unfold runCallback, bind, clickVideosTab.
  now rewrite clickFirst_firstMatch, H.
Qed.

(** The orchestrator itself never assigns the location. *)
Lemma switchToVideosTab_location (url : string) (w : World) :
  location_href (snd (switchToVideosTab url setTimeout w)) = location_href w.
Proof.
  unfold switchToVideosTab.
  destruct (negb (isChannelMainPage url) || isOnVideosTab url); [reflexivity|].
  unfold bind at 1. cbn [console_log].
  unfold bind, clickVideosTab. rewrite clickFirst_firstMatch.
  destruct (firstMatch _ selectors); reflexivity.
Qed.

End FlowFacts.

(** ** The scenarios of the repository's test suite *)

Module TestSuite.

Example channel_formats :
  map isChannelMainPage
      [ "https://www.youtube.com/@mkbhd";
        "https://www.youtube.com/c/LinusTechTips";
        "https://www.youtube.com/channel/UCBJycsmduvYEL83R_U4JriQ";
        "https://www.youtube.com/user/marquesbrownlee" ] =
  [true; true; true; true].
Proof. reflexivity. Qed.

Example channel_sub_pages :
  map isChannelMainPage
      [ "https://www.youtube.com/@mkbhd/videos";
        "https://www.youtube.com/@mkbhd/about";
        "https://www.youtube.com/@mkbhd/community";
        "https://www.youtube.com/@mkbhd/playlists" ] =
  [false; false; false; false].
Proof. reflexivity. Qed.

Example non_channel_pages :
  map isChannelMainPage
      [ "https://www.youtube.com/watch?v=dQw4w9WgXcQ";
        "https://www.youtube.com/results?search_query=test";
        "https://www.youtube.com/feed/subscriptions";
        "https://www.youtube.com/" ] =
  [false; false; false; false].
Proof. reflexivity. Qed.

Example non_youtube_sites :
  map isChannelMainPage
      [ "https://www.google.com/";
        "https://github.com/user/repo";
        "https://stackoverflow.com/questions/12345";
        "https://www.youtube-like-site.com/@channel" ] =
  [false; false; false; false].
Proof. reflexivity. Qed.

Example already_on_videos_tab :
  isOnVideosTab "https://www.youtube.com/@mkbhd/videos" = true /\
  isOnVideosTab "https://www.youtube.com/@mkbhd" = false.
Proof. split; reflexivity. Qed.

Example fallback_address :
  getVideosUrl "https://www.youtube.com/@mkbhd" =
  "https://www.youtube.com/@mkbhd/videos".
Proof. reflexivity. Qed.

Example no_tab_in_page :
  clickVideosTab (blankPage "https://www.youtube.com/") =
  (false, blankPage "https://www.youtube.com/").
Proof. reflexivity. Qed.

Example tab_in_page_is_clicked :
  fst (clickVideosTab (pageWithTab "https://www.youtube.com/")) = true /\
  clicked (snd (clickVideosTab (pageWithTab "https://www.youtube.com/"))) =
    [videosAnchor].
Proof. split; reflexivity. Qed.

Example navigation_assigns_location :
  location_href
    (snd (navigateToVideosTab "https://www.youtube.com/@mkbhd"
                              (blankPage "https://www.youtube.com/@mkbhd"))) =
  "https://www.youtube.com/@mkbhd/videos".
Proof. reflexivity. Qed.

Example watch_page_schedules_nothing :
  switchToVideosTab "https://www.youtube.com/watch?v=dQw4w9WgXcQ" setTimeout
                    (blankPage "https://www.youtube.com/watch?v=dQw4w9WgXcQ") =
  (tt, blankPage "https://www.youtube.com/watch?v=dQw4w9WgXcQ").
Proof. reflexivity. Qed.

End TestSuite.

(** ** The properties of the specification *)

Import StrFacts RegexFacts ClassifierFacts FlowFacts.

(** A segment after an address of the shape, in terms of the classifier:
    the longer address is accepted only when the address ends in the
    site name and the segment is a handle. *)
Lemma isChannelMainPage_sub_path (a seg : string) :
  isChannelMainPage a = true -> Str.lacks "/" seg = true ->
  (isChannelMainPage (a ++ "/" ++ seg) = true <->
   Str.endsWith a "youtube.com" = true /\
   prefix "@" seg = true /\ (2 <= length seg)%nat).
Proof.
  intros Ha Ls. apply isChannelMainPage_spec in Ha.
  rewrite isChannelMainPage_spec, (ChannelShaped_sub_path a seg Ha Ls).
  rewrite endsWith_spec, prefix_spec. split.
  - intros [P (id & -> & N)]. split; [exact P|]. split; [now exists id|].
    destruct id; [contradiction | simpl; lia].
  - intros [P [[id ->] L]]. split; [exact P|]. exists id.
    split; [reflexivity|]. destruct id; [simpl in L; lia | discriminate].
Qed.

(** A segment that is not a handle, or nothing at all after the slash:
    the longer address is rejected. *)
Lemma isChannelMainPage_plain_sub_path (a seg : string) :
  isChannelMainPage a = true -> Str.lacks "/" seg = true ->
  prefix "@" seg = false ->
  isChannelMainPage (a ++ "/" ++ seg) = false.
Proof.
  intros Ha Ls Ps.
  destruct (isChannelMainPage (a ++ "/" ++ seg)) eqn:E; [|reflexivity].
  apply (isChannelMainPage_sub_path a seg Ha Ls) in E as (_ & P & _).
  congruence.
Qed.

(** C1: an address that contains [/videos], or is not of the channel
    shape, or is on another domain than the host site's, should make
    [switchToVideosTab] do nothing.  The first two hold
    ([switchToVideosTab_ineligible]); the third fails, because the
    pattern is searched anywhere in the address: on
    [https://notyoutube.com/@channel], whose host is not the site's,
    the orchestrator calls the scheduler when the page has no tab and
    clicks the tab when it has one. *)
Theorem switchToVideosTab_lookalike_domain :
  Url.host lookalikeAddress = "notyoutube.com" /\
  Url.onHostSite lookalikeAddress = false /\
  isChannelMainPage lookalikeAddress = true /\
  isOnVideosTab lookalikeAddress = false /\
  switchToVideosTab lookalikeAddress setTimeout (blankPage lookalikeAddress) =
    (tt, mkWorld (fun _ => None) lookalikeAddress []
                 [["[YouTube Videos Tab] Channel main page detected"]]
                 [(RetryCallback lookalikeAddress, 500%Z)]) /\
  clicked (snd (switchToVideosTab lookalikeAddress setTimeout
                                  (pageWithTab lookalikeAddress))) =
    [videosAnchor].
Proof. repeat split; reflexivity. Qed.

(** C2: on an eligible address with no Videos tab in the page,
    [switchToVideosTab] calls the scheduler once, with the retry
    callback and 500 ms; the callback run in a page without tab sets
    the location to the address followed by [/videos]; run in a page
    with a tab, it clicks that tab and leaves the location as it is. *)
Theorem switchToVideosTab_schedules_retry (url : string) (w : World) :
  isChannelMainPage url = true -> isOnVideosTab url = false ->
  videosTabPresent w = false ->
  (forall sched : Scheduler,
      switchToVideosTab url sched w =
      sched (RetryCallback url) 500%Z (detected w)) /\
  timers (snd (switchToVideosTab url setTimeout w)) =
    (timers w ++ [(RetryCallback url, 500%Z)])%list /\
  clicked (snd (switchToVideosTab url setTimeout w)) = clicked w /\
  location_href (snd (switchToVideosTab url setTimeout w)) = location_href w /\
  (forall w' : World,
      videosTabPresent w' = false ->
      location_href (snd (runCallback (RetryCallback url) w')) = url ++ "/videos" /\
      clicked (snd (runCallback (RetryCallback url) w')) = clicked w') /\
  (forall w' : World,
      videosTabPresent w' = true ->
      exists t,
        firstMatch w' selectors = Some t /\
        clicked (snd (runCallback (RetryCallback url) w')) = (clicked w' ++ [t])%list /\
        location_href (snd (runCallback (RetryCallback url) w')) =
          location_href w').
Proof.
  intros Hc Hv Ht.
  split; [intros sched; now apply switchToVideosTab_eligible_absent|].
  rewrite (switchToVideosTab_eligible_absent url setTimeout w Hc Hv Ht).
  repeat split; try reflexivity.
  - now rewrite runCallback_absent.
  - now rewrite runCallback_absent.
  - intros w' Hp. apply clickVideosTab_present in Hp as (t & Hf & _).
    exists t. rewrite (runCallback_present url w' t Hf). auto.
Qed.

Lemma switchToVideosTab_schedules_retry_witness :
  isChannelMainPage "https://www.youtube.com/@mkbhd" = true /\
  isOnVideosTab "https://www.youtube.com/@mkbhd" = false /\
  videosTabPresent (blankPage "https://www.youtube.com/@mkbhd") = false /\
  timers (snd (switchToVideosTab "https://www.youtube.com/@mkbhd" setTimeout
                 (blankPage "https://www.youtube.com/@mkbhd"))) =
    [(RetryCallback "https://www.youtube.com/@mkbhd", 500%Z)].
Proof.
  split; [reflexivity|]. split; [reflexivity|]. split; [reflexivity|].
  apply (switchToVideosTab_schedules_retry
           "https://www.youtube.com/@mkbhd"
           (blankPage "https://www.youtube.com/@mkbhd"));
    reflexivity.
Defined.

(** C3: an address made of a root that ends in the site name, then
    [/@], [/c/], [/channel/] or [/user/], then an identifier (not empty,
    no slash) and nothing more, is a channel main page. *)
Theorem isChannelMainPage_channel_addresses (root id : string) :
  Str.endsWith root "youtube.com" = true -> isIdentifier id = true ->
  isChannelMainPage (root ++ "/@" ++ id) = true /\
  isChannelMainPage (root ++ "/c/" ++ id) = true /\
  isChannelMainPage (root ++ "/channel/" ++ id) = true /\
  isChannelMainPage (root ++ "/user/" ++ id) = true.
Proof.
  intros Hr Hi. apply endsWith_spec in Hr as [pre ->].
  repeat split; apply isChannelMainPage_spec.
  - exists pre, "@", id. split; [now rewrite append_assoc | simpl; auto].
  - exists pre, "c/", id. split; [now rewrite append_assoc | simpl; auto].
  - exists pre, "channel/", id. split; [now rewrite append_assoc | simpl; auto 6].
  - exists pre, "user/", id. split; [now rewrite append_assoc | simpl; auto 6].
Qed.

Lemma isChannelMainPage_channel_addresses_witness :
  Str.endsWith "https://www.youtube.com" "youtube.com" = true /\
  isIdentifier "LinusTechTips" = true /\
  isChannelMainPage ("https://www.youtube.com" ++ "/@" ++ "LinusTechTips") = true /\
  isChannelMainPage ("https://www.youtube.com" ++ "/c/" ++ "LinusTechTips") = true /\
  isChannelMainPage ("https://www.youtube.com" ++ "/channel/" ++ "LinusTechTips") = true /\
  isChannelMainPage ("https://www.youtube.com" ++ "/user/" ++ "LinusTechTips") = true.
Proof.
  split; [reflexivity|]. split; [reflexivity|].
  apply (isChannelMainPage_channel_addresses
           "https://www.youtube.com" "LinusTechTips"); reflexivity.
Defined.

(** C4: a segment or a lone slash after an address of the channel shape
    should make [isChannelMainPage] false.  It does for every segment
    that is not a handle ([isChannelMainPage_plain_sub_path]), but the
    pattern is searched anywhere in the address: after the channel
    [@my.youtube.com], whose handle ends in the site name, the segment
    [@other] is taken for a channel of its own and the answer is true. *)
Theorem isChannelMainPage_handle_after_site_name :
  isChannelMainPage dottedHandleAddress = true /\
  Str.lacks "/" "@other" = true /\
  isChannelMainPage (dottedHandleAddress ++ "/" ++ "@other") = true.
Proof. repeat split; reflexivity. Qed.

(** C5: [isOnVideosTab] is true exactly for the addresses in which
    [/videos] occurs somewhere. *)
Theorem isOnVideosTab_iff_contains (url : string) :
  isOnVideosTab url = true <->
  exists before after, url = before ++ "/videos" ++ after.
Proof. unfold isOnVideosTab. apply includes_spec. Qed.

(** C6: on an eligible address with a Videos tab in the page,
    [switchToVideosTab] clicks the tab the activator finds, once, and
    the scheduler is not called: the outcome is the same for every
    scheduler, and no timer is added. *)
Theorem switchToVideosTab_clicks_tab (url : string) (w : World) :
  isChannelMainPage url = true -> isOnVideosTab url = false ->
  videosTabPresent w = true ->
  exists t,
    firstMatch w selectors = Some t /\
    (forall sched : Scheduler,
        switchToVideosTab url sched w = (tt, afterClick t (detected w))) /\
    clicked (snd (switchToVideosTab url setTimeout w)) = (clicked w ++ [t])%list /\
    timers (snd (switchToVideosTab url setTimeout w)) = timers w /\
    location_href (snd (switchToVideosTab url setTimeout w)) = location_href w.
Proof.
  intros Hc Hv Hp. apply clickVideosTab_present in Hp as (t & Hf & _).
  exists t. split; [exact Hf|].
  split; [intros sched; now apply switchToVideosTab_eligible_present|].
  rewrite (switchToVideosTab_eligible_present url setTimeout w t Hc Hv Hf).
  repeat split.
Qed.

Lemma switchToVideosTab_clicks_tab_witness :
  isChannelMainPage "https://www.youtube.com/@mkbhd" = true /\
  isOnVideosTab "https://www.youtube.com/@mkbhd" = false /\
  videosTabPresent (pageWithTab "https://www.youtube.com/@mkbhd") = true /\
  exists t,
    firstMatch (pageWithTab "https://www.youtube.com/@mkbhd") selectors = Some t /\
    (forall sched : Scheduler,
        switchToVideosTab "https://www.youtube.com/@mkbhd" sched
                          (pageWithTab "https://www.youtube.com/@mkbhd") =
        (tt, afterClick t (detected (pageWithTab "https://www.youtube.com/@mkbhd")))) /\
    clicked (snd (switchToVideosTab "https://www.youtube.com/@mkbhd" setTimeout
                    (pageWithTab "https://www.youtube.com/@mkbhd"))) =
      (clicked (pageWithTab "https://www.youtube.com/@mkbhd") ++ [t])%list /\
    timers (snd (switchToVideosTab "https://www.youtube.com/@mkbhd" setTimeout
                   (pageWithTab "https://www.youtube.com/@mkbhd"))) =
      timers (pageWithTab "https://www.youtube.com/@mkbhd") /\
    location_href (snd (switchToVideosTab "https://www.youtube.com/@mkbhd" setTimeout
                          (pageWithTab "https://www.youtube.com/@mkbhd"))) =
      location_href (pageWithTab "https://www.youtube.com/@mkbhd").
Proof.
  split; [reflexivity|]. split; [reflexivity|]. split; [reflexivity|].
  apply (switchToVideosTab_clicks_tab
           "https://www.youtube.com/@mkbhd"
           (pageWithTab "https://www.youtube.com/@mkbhd"));
    reflexivity.
Defined.

(** C7: [getVideosUrl] appends [/videos] to any address, whatever its
    shape; on [https://host/@x] it gives [https://host/@x/videos]. *)
Theorem getVideosUrl_appends :
  (forall a : string, getVideosUrl a = a ++ "/videos") /\
  (forall a : string, length (getVideosUrl a) = (length a + 7)%nat) /\
  getVideosUrl "https://host/@x" = "https://host/@x/videos" /\
  getVideosUrl "" = "/videos".
Proof.
  repeat split.
  intros a. unfold getVideosUrl. now rewrite append_length.
Qed.


(** C8: the retry callback that [switchToVideosTab] hands to the
    scheduler holds the address it was called with.  Run later in any
    page without a Videos tab, whatever the location of that page has
    become and whether or not that location is eligible, it sets the
    location to the held address followed by [/videos]: neither
    [isChannelMainPage] nor [isOnVideosTab] is asked again. *)
Theorem retry_navigates_to_captured_address (url : string) (w : World) :
  isChannelMainPage url = true -> isOnVideosTab url = false ->
  videosTabPresent w = false ->
  exists cb : Callback,
    timers (snd (switchToVideosTab url setTimeout w)) =
      (timers w ++ [(cb, 500%Z)])%list /\
    forall w' : World,
      videosTabPresent w' = false ->
      location_href (snd (runCallback cb w')) = getVideosUrl url.
Proof.
  intros Hc Hv Ht. exists (RetryCallback url). split.
  - now rewrite (switchToVideosTab_eligible_absent url setTimeout w Hc Hv Ht).
  - intros w' Ht'. now rewrite runCallback_absent.
Qed.

Lemma retry_navigates_to_captured_address_witness :
  isChannelMainPage "https://www.youtube.com/@mkbhd" = true /\
  isOnVideosTab "https://www.youtube.com/@mkbhd" = false /\
  videosTabPresent (blankPage "https://www.youtube.com/@mkbhd") = false /\
  exists cb : Callback,
    timers (snd (switchToVideosTab "https://www.youtube.com/@mkbhd" setTimeout
                   (blankPage "https://www.youtube.com/@mkbhd"))) =
      (timers (blankPage "https://www.youtube.com/@mkbhd") ++ [(cb, 500%Z)])%list /\
    forall w' : World,
      videosTabPresent w' = false ->
      location_href (snd (runCallback cb w')) =
        getVideosUrl "https://www.youtube.com/@mkbhd".
Proof.
  split; [reflexivity|]. split; [reflexivity|]. split; [reflexivity|].
  apply (retry_navigates_to_captured_address
           "https://www.youtube.com/@mkbhd"
           (blankPage "https://www.youtube.com/@mkbhd"));
    reflexivity.
Defined.

(** The callback of a channel page, run after the user has moved to a
    watch page: the location is overwritten from the held address. *)
Example retry_after_leaving_the_channel :
  isChannelMainPage "https://www.youtube.com/watch?v=dQw4w9WgXcQ" = false /\
  location_href
    (snd (runCallback (RetryCallback "https://www.youtube.com/@mkbhd")
                      (blankPage "https://www.youtube.com/watch?v=dQw4w9WgXcQ"))) =
    "https://www.youtube.com/@mkbhd/videos".
Proof. split; reflexivity. Qed.

Lemma handleUrlChange_unchanged (obs : Observer) (w : World) :
  location_href w = lastUrl obs -> handleUrlChange obs w = (obs, w).
Proof.
  intros E. unfold handleUrlChange, bind, get_location_href.
  now rewrite E, String.eqb_refl.
Qed.

Lemma handleUrlChange_changed (obs : Observer) (w : World) :
  location_href w <> lastUrl obs ->
  handleUrlChange obs w =
  callSwitchToVideosTab
    (location_href w)
    (mkObserver (location_href w) (acted obs))
    (snd (console_log ["[YouTube Videos Tab] URL changed:"; location_href w] w)).
Proof.
  intros N. unfold handleUrlChange, bind at 1, get_location_href.
  apply String.eqb_neq in N. now rewrite N.
Qed.

Lemma callSwitchToVideosTab_result (url : string) (obs : Observer) (w : World) :
  callSwitchToVideosTab url obs w =
  (mkObserver (lastUrl obs) (url :: acted obs),
   snd (switchToVideosTab url setTimeout w)).
Proof.
  unfold callSwitchToVideosTab, bind, ret.
  now destruct (switchToVideosTab url setTimeout w).
Qed.

Lemma attach_result (b : Element) (w0 : World) :
  attach (Some b) w0 =
  (Some (mkObserver (location_href w0) [location_href w0]),
   snd (console_log ["[YouTube Videos Tab] Extension initialized"]
          (snd (switchToVideosTab (location_href w0) setTimeout w0)))).
Proof.
  unfold attach, bind, get_location_href.
  rewrite callSwitchToVideosTab_result. reflexivity.
Qed.

Lemma attach_throws (w0 : World) :
  attach None w0 =
  (None, snd (switchToVideosTab (location_href w0) setTimeout w0)).
Proof.
  unfold attach, bind, get_location_href.
  rewrite callSwitchToVideosTab_result. reflexivity.
Qed.

Lemma attach_registered (body : option Element) (w0 w1 : World) (obs : Observer) :
  attach body w0 = (Some obs, w1) ->
  obs = mkObserver (location_href w0) [location_href w0].
Proof.
  destruct body as [b|]; [rewrite attach_result | rewrite attach_throws];
    intros H; [now injection H as <- _ | discriminate].
Qed.

(** C9: the change observer.  A notification with the address unchanged
    does nothing.  A notification with a new address first records it as
    the last observed one, then calls [switchToVideosTab] with it and
    the default scheduler: the world that results is the one
    [switchToVideosTab] leaves, and each entry of the history is such a
    call.  So, in every state the observer can reach from the moment
    the script attaches, the last observed address is the address of
    the most recent call; and a second notification right after the
    first one does nothing more. *)
Theorem handleUrlChange_tracks_acted_address :
  (forall obs w,
      location_href w = lastUrl obs -> handleUrlChange obs w = (obs, w)) /\
  (forall obs w,
      location_href w <> lastUrl obs ->
      handleUrlChange obs w =
        callSwitchToVideosTab
          (location_href w)
          (mkObserver (location_href w) (acted obs))
          (snd (console_log
                  ["[YouTube Videos Tab] URL changed:"; location_href w] w)) /\
      handleUrlChange obs w =
        (mkObserver (location_href w) (location_href w :: acted obs),
         snd (switchToVideosTab
                (location_href w) setTimeout
                (snd (console_log
                        ["[YouTube Videos Tab] URL changed:"; location_href w]
                        w)))) /\
      lastUrl (fst (handleUrlChange obs w)) = location_href w /\
      acted (fst (handleUrlChange obs w)) = location_href w :: acted obs) /\
  (forall url obs w,
      callSwitchToVideosTab url obs w =
      (mkObserver (lastUrl obs) (url :: acted obs),
       snd (switchToVideosTab url setTimeout w))) /\
  (forall obs w,
      Reachable obs w -> hd_error (acted obs) = Some (lastUrl obs)) /\
  (forall obs w,
      handleUrlChange (fst (handleUrlChange obs w)) (snd (handleUrlChange obs w)) =
      handleUrlChange obs w).
Proof.
  split; [exact handleUrlChange_unchanged|].
  split; [|split; [exact callSwitchToVideosTab_result | split]].
  - intros obs w N. split; [now apply handleUrlChange_changed|].
    rewrite (handleUrlChange_changed obs w N), callSwitchToVideosTab_result.
    split; [reflexivity | split; reflexivity].
  - intros obs w R.
    induction R as [body w0 obs w1 A | obs w w' _ IH | obs w _ IH].
    + now rewrite (attach_registered body w0 w1 obs A).
    + exact IH.
    + destruct (string_dec (location_href w) (lastUrl obs)) as [E | N].
      * now rewrite (handleUrlChange_unchanged obs w E).
      * rewrite (handleUrlChange_changed obs w N), callSwitchToVideosTab_result.
        reflexivity.
  - intros obs w. destruct (string_dec (location_href w) (lastUrl obs)) as [E | N].
    + rewrite (handleUrlChange_unchanged obs w E). simpl.
      now apply handleUrlChange_unchanged.
    + rewrite (handleUrlChange_changed obs w N), callSwitchToVideosTab_result.
      apply handleUrlChange_unchanged. simpl.
      now rewrite switchToVideosTab_location.
Qed.

Lemma handleUrlChange_tracks_acted_address_witness :
  location_href (blankPage "https://www.youtube.com/@mkbhd") <>
    lastUrl (mkObserver "https://www.youtube.com/" ["https://www.youtube.com/"]) /\
  handleUrlChange
    (mkObserver "https://www.youtube.com/" ["https://www.youtube.com/"])
    (blankPage "https://www.youtube.com/@mkbhd") =
    (mkObserver "https://www.youtube.com/@mkbhd"
                ["https://www.youtube.com/@mkbhd"; "https://www.youtube.com/"],
     mkWorld (fun _ => None) "https://www.youtube.com/@mkbhd" []
             [["[YouTube Videos Tab] URL changed:"; "https://www.youtube.com/@mkbhd"];
              ["[YouTube Videos Tab] Channel main page detected"]]
             [(RetryCallback "https://www.youtube.com/@mkbhd", 500%Z)]) /\
  hd_error (acted (mkObserver "https://www.youtube.com/@mkbhd"
                              ["https://www.youtube.com/@mkbhd"])) =
    Some (lastUrl (mkObserver "https://www.youtube.com/@mkbhd"
                              ["https://www.youtube.com/@mkbhd"])).
Proof.
  split; [discriminate|]. split.
  - rewrite (proj1 (proj2 (proj1 (proj2 handleUrlChange_tracks_acted_address)
                             (mkObserver "https://www.youtube.com/"
                                         ["https://www.youtube.com/"])
                             (blankPage "https://www.youtube.com/@mkbhd")
                             ltac:(discriminate)))).
    reflexivity.
  - apply (proj1 (proj2 (proj2 (proj2 handleUrlChange_tracks_acted_address)))
             (mkObserver "https://www.youtube.com/@mkbhd"
                         ["https://www.youtube.com/@mkbhd"])
             (snd (attach (Some bodyElement)
                          (blankPage "https://www.youtube.com/@mkbhd")))).
    apply (ReachAttach (Some bodyElement)
                       (blankPage "https://www.youtube.com/@mkbhd")).
    reflexivity.
Defined.

(** C10: the rewritten address is on the Videos tab, and is not a
    channel main page when the address was one; so [switchToVideosTab]
    does nothing on a rewritten address, and the rewrite cannot set
    itself off again. *)
Theorem getVideosUrl_never_eligible :
  (forall a : string, isOnVideosTab (getVideosUrl a) = true) /\
  (forall a : string,
      isChannelMainPage a = true -> isChannelMainPage (getVideosUrl a) = false) /\
  (forall (a : string) (sched : Scheduler) (w : World),
      switchToVideosTab (getVideosUrl a) sched w = (tt, w)).
Proof.
  assert (V : forall a, isOnVideosTab (getVideosUrl a) = true).
  { intros a. unfold isOnVideosTab, getVideosUrl. apply includes_spec.
    exists a, "". reflexivity. }
  split; [exact V|]. split.
  - intros a Ha.
    apply (isChannelMainPage_plain_sub_path a "videos" Ha); reflexivity.
  - intros a sched w. apply switchToVideosTab_ineligible. right. apply V.
Qed.

Lemma getVideosUrl_never_eligible_witness :
  isChannelMainPage "https://www.youtube.com/@mkbhd" = true /\
  isChannelMainPage (getVideosUrl "https://www.youtube.com/@mkbhd") = false.
Proof.
  split; [reflexivity|].
  apply (proj1 (proj2 getVideosUrl_never_eligible)
           "https://www.youtube.com/@mkbhd").
  reflexivity.
Defined.


(** ** Further properties *)

(** An address in which [/videos] occurs, or that the classifier
    rejects, makes [switchToVideosTab] do nothing, whatever the page and
    the scheduler; and the classifier rejects every address in which
    the site name followed by a slash does not occur. *)
Theorem switchToVideosTab_no_action (url : string) :
  (isOnVideosTab url = true \/ isChannelMainPage url = false ->
   forall (sched : Scheduler) (w : World),
     switchToVideosTab url sched w = (tt, w)) /\
  (Str.includes url "youtube.com/" = false -> isChannelMainPage url = false).
Proof.
  split.
  - intros H sched w. apply switchToVideosTab_ineligible. tauto.
  - intros H. destruct (isChannelMainPage url) eqn:E; [|reflexivity].
    apply isChannelMainPage_spec in E as (pre & style & id & -> & _).
    assert (I : Str.includes (pre ++ "youtube.com/" ++ style ++ id)
                             "youtube.com/" = true).
    { apply includes_spec. exists pre, (style ++ id). reflexivity. }
    congruence.
Qed.

Lemma switchToVideosTab_no_action_witness :
  Str.includes "https://www.youtube-like-site.com/@channel" "youtube.com/" = false /\
  isChannelMainPage "https://www.youtube-like-site.com/@channel" = false /\
  switchToVideosTab "https://www.youtube-like-site.com/@channel" setTimeout
                    (pageWithTab "https://www.youtube-like-site.com/@channel") =
    (tt, pageWithTab "https://www.youtube-like-site.com/@channel").
Proof.
  split; [reflexivity|]. split.
  - apply (proj2 (switchToVideosTab_no_action
                    "https://www.youtube-like-site.com/@channel")).
    reflexivity.
  - apply (proj1 (switchToVideosTab_no_action
                    "https://www.youtube-like-site.com/@channel")).
    right. reflexivity.
Defined.

(** After a channel main page, a lone slash, one of the four tab
    segments, or any segment without slash that does not begin with
    [@], gives an address that is not a channel main page. *)
Theorem isChannelMainPage_rejects_sub_paths (a : string) :
  isChannelMainPage a = true ->
  isChannelMainPage (a ++ "/") = false /\
  isChannelMainPage (a ++ "/videos") = false /\
  isChannelMainPage (a ++ "/about") = false /\
  isChannelMainPage (a ++ "/community") = false /\
  isChannelMainPage (a ++ "/playlists") = false /\
  (forall seg : string,
      Str.lacks "/" seg = true -> prefix "@" seg = false ->
      isChannelMainPage (a ++ "/" ++ seg) = false).
Proof.
  intros Ha. repeat split.
  - apply (isChannelMainPage_plain_sub_path a "" Ha); reflexivity.
  - apply (isChannelMainPage_plain_sub_path a "videos" Ha); reflexivity.
  - apply (isChannelMainPage_plain_sub_path a "about" Ha); reflexivity.
  - apply (isChannelMainPage_plain_sub_path a "community" Ha); reflexivity.
  - apply (isChannelMainPage_plain_sub_path a "playlists" Ha); reflexivity.
  - intros seg. now apply isChannelMainPage_plain_sub_path.
Qed.

Lemma isChannelMainPage_rejects_sub_paths_witness :
  isChannelMainPage "https://www.youtube.com/@mkbhd" = true /\
  isChannelMainPage ("https://www.youtube.com/@mkbhd" ++ "/") = false /\
  isChannelMainPage ("https://www.youtube.com/@mkbhd" ++ "/about") = false.
Proof.
  split; [reflexivity|].
  split; apply (isChannelMainPage_rejects_sub_paths
                  "https://www.youtube.com/@mkbhd"); reflexivity.
Defined.

(** The classifier accepts exactly the addresses that end with the site
    name, a slash, one of the four channel styles and an identifier. *)
Theorem isChannelMainPage_iff_shape (url : string) :
  isChannelMainPage url = true <->
  exists pre style id,
    url = pre ++ "youtube.com/" ++ style ++ id /\
    In style ["@"; "c/"; "channel/"; "user/"] /\
    id <> "" /\ Str.lacks "/" id = true.
Proof.
  rewrite isChannelMainPage_spec. unfold ChannelShaped, channelStyles.
  split; intros (pre & style & id & E & S & I); exists pre, style, id;
    (split; [exact E | split; [exact S | now apply isIdentifier_spec]]).
Qed.

(** ** The activator, the callback and the orchestrator: what they touch *)

Module EffectFacts.
Import StrFacts FlowFacts.

Lemma selectors_positions :
  selectors = [selectorAt 0; selectorAt 1; selectorAt 2].
Proof. reflexivity. Qed.

Lemma clickVideosTab_frame (w : World) :
  location_href (snd (clickVideosTab w)) = location_href w /\
  timers (snd (clickVideosTab w)) = timers w /\
  querySelector (snd (clickVideosTab w)) = querySelector w.
Proof.
  unfold clickVideosTab. rewrite clickFirst_firstMatch.
  destruct (firstMatch w selectors); repeat split.
Qed.

Lemma firstMatch_positions (w : World) :
  firstMatch w selectors =
  match querySelector w (selectorAt 0) with
  | Some t => Some t
  | None =>
      match querySelector w (selectorAt 1) with
      | Some t => Some t
      | None => querySelector w (selectorAt 2)
      end
  end.
Proof.
  rewrite selectors_positions. cbn [firstMatch].
  destruct (querySelector w (selectorAt 0)); [reflexivity|].
  destruct (querySelector w (selectorAt 1)); [reflexivity|].
  destruct (querySelector w (selectorAt 2)); reflexivity.
Qed.

Lemma firstMatch_present (w : World) :
  videosTabPresent w =
  match firstMatch w selectors with Some _ => true | None => false end.
Proof.
  destruct (firstMatch w selectors) as [t|] eqn:E.
  - destruct (videosTabPresent w) eqn:P; [reflexivity|].
    apply firstMatch_None in P. congruence.
  - now apply firstMatch_None.
Qed.

End EffectFacts.

Import StrFacts RegexFacts ClassifierFacts FlowFacts EffectFacts.

(** [clickVideosTab] answers whether the page has a Videos tab.  With
    none it leaves the page as it is; with one it clicks a single
    element, the answer to the first selector of the list that has one,
    whatever the later selectors answer.  It never touches the
    location, the timers or the document. *)
Theorem clickVideosTab_outcome (w : World) :
  fst (clickVideosTab w) = videosTabPresent w /\
  location_href (snd (clickVideosTab w)) = location_href w /\
  timers (snd (clickVideosTab w)) = timers w /\
  querySelector (snd (clickVideosTab w)) = querySelector w /\
  (videosTabPresent w = false -> snd (clickVideosTab w) = w) /\
  (forall t,
      querySelector w (selectorAt 0) = Some t ->
      clicked (snd (clickVideosTab w)) = (clicked w ++ [t])%list) /\
  (forall t,
      querySelector w (selectorAt 0) = None ->
      querySelector w (selectorAt 1) = Some t ->
      clicked (snd (clickVideosTab w)) = (clicked w ++ [t])%list) /\
  (forall t,
      querySelector w (selectorAt 0) = None ->
      querySelector w (selectorAt 1) = None ->
      querySelector w (selectorAt 2) = Some t ->
      clicked (snd (clickVideosTab w)) = (clicked w ++ [t])%list).
Proof.
  pose proof (clickVideosTab_frame w) as (L & T & Q).
  split; [|split; [exact L | split; [exact T | split; [exact Q|]]]].
  - rewrite firstMatch_present. unfold clickVideosTab.
    rewrite clickFirst_firstMatch. now destruct (firstMatch w selectors).
  - unfold clickVideosTab. rewrite clickFirst_firstMatch, firstMatch_positions.
    split; [|split; [|split]].
    + intros P. rewrite firstMatch_present, firstMatch_positions in P.
      destruct (querySelector w (selectorAt 0)); [discriminate|].
      destruct (querySelector w (selectorAt 1)); [discriminate|].
      destruct (querySelector w (selectorAt 2)); [discriminate | reflexivity].
    + intros t ->. reflexivity.
    + intros t -> ->. reflexivity.
    + intros t -> -> ->. reflexivity.
Qed.

Lemma clickVideosTab_outcome_witness :
  querySelector (pageAnswering 2 videosAnchor "https://www.youtube.com/@mkbhd")
                (selectorAt 0) = None /\
  querySelector (pageAnswering 2 videosAnchor "https://www.youtube.com/@mkbhd")
                (selectorAt 1) = None /\
  querySelector (pageAnswering 2 videosAnchor "https://www.youtube.com/@mkbhd")
                (selectorAt 2) = Some videosAnchor /\
  clicked (snd (clickVideosTab
                  (pageAnswering 2 videosAnchor "https://www.youtube.com/@mkbhd"))) =
    (clicked (pageAnswering 2 videosAnchor "https://www.youtube.com/@mkbhd")
       ++ [videosAnchor])%list.
Proof.
  split; [reflexivity|]. split; [reflexivity|]. split; [reflexivity|].
  apply (proj2 (proj2 (proj2 (proj2 (proj2 (proj2 (proj2
           (clickVideosTab_outcome
              (pageAnswering 2 videosAnchor "https://www.youtube.com/@mkbhd")))))))));
    reflexivity.
Defined.

(** With the platform's scheduler, [switchToVideosTab] leaves the
    location and the document as they are, and does one of three
    things: nothing at all, one click and no timer, or one timer (the
    retry callback of its address, 500 ms) and no click. *)
Theorem switchToVideosTab_effects (url : string) (w : World) :
  location_href (snd (switchToVideosTab url setTimeout w)) = location_href w /\
  querySelector (snd (switchToVideosTab url setTimeout w)) = querySelector w /\
  (snd (switchToVideosTab url setTimeout w) = w \/
   (exists t,
       clicked (snd (switchToVideosTab url setTimeout w)) = (clicked w ++ [t])%list /\
       timers (snd (switchToVideosTab url setTimeout w)) = timers w) \/
   (clicked (snd (switchToVideosTab url setTimeout w)) = clicked w /\
    timers (snd (switchToVideosTab url setTimeout w)) =
      (timers w ++ [(RetryCallback url, 500%Z)])%list)).
Proof.
  destruct (isChannelMainPage url) eqn:Hc;
    [destruct (isOnVideosTab url) eqn:Hv|].
  - rewrite (switchToVideosTab_ineligible url setTimeout w) by auto.
    split; [reflexivity|]. split; [reflexivity|]. left. reflexivity.
  - destruct (firstMatch w selectors) as [t|] eqn:E.
    + rewrite (switchToVideosTab_eligible_present url setTimeout w t Hc Hv E).
      split; [reflexivity|]. split; [reflexivity|].
      right. left. exists t. split; reflexivity.
    + apply firstMatch_None in E.
      rewrite (switchToVideosTab_eligible_absent url setTimeout w Hc Hv E).
      split; [reflexivity|]. split; [reflexivity|].
      right. right. split; reflexivity.
  - rewrite (switchToVideosTab_ineligible url setTimeout w) by auto.
    split; [reflexivity|]. split; [reflexivity|]. left. reflexivity.
Qed.

(** The retry callback, for any held address and in any page: it never
    calls a scheduler (there is no second retry) and never changes the
    document; it either clicks one element and leaves the location, when
    the page has a Videos tab, or clicks nothing and sets the location
    to the held address followed by [/videos], when it has none. *)
Theorem runCallback_effects (url : string) (w : World) :
  timers (snd (runCallback (RetryCallback url) w)) = timers w /\
  querySelector (snd (runCallback (RetryCallback url) w)) = querySelector w /\
  ((videosTabPresent w = true /\
    location_href (snd (runCallback (RetryCallback url) w)) = location_href w /\
    exists t,
      clicked (snd (runCallback (RetryCallback url) w)) = (clicked w ++ [t])%list) \/
   (videosTabPresent w = false /\
    clicked (snd (runCallback (RetryCallback url) w)) = clicked w /\
    location_href (snd (runCallback (RetryCallback url) w)) = url ++ "/videos")).
Proof.
  rewrite firstMatch_present.
  destruct (firstMatch w selectors) as [t|] eqn:E.
  - rewrite (runCallback_present url w t E).
    split; [reflexivity|]. split; [reflexivity|].
    left. split; [reflexivity|]. split; [reflexivity|].
    exists t. reflexivity.
  - apply firstMatch_None in E. rewrite (runCallback_absent url w E).
    split; [reflexivity|]. split; [reflexivity|].
    right. repeat split.
Qed.

(** ** The observer and the fallback together *)

Module ObserverFacts.
Import StrFacts FlowFacts EffectFacts.

Lemma isOnVideosTab_getVideosUrl (a : string) :
  isOnVideosTab (getVideosUrl a) = true.
Proof.
  unfold isOnVideosTab, getVideosUrl. apply includes_spec.
  exists a, "". reflexivity.
Qed.

(** What one call of the orchestrator adds to the clicks and the timers. *)
Lemma switchToVideosTab_growth (url : string) (w : World) :
  exists cs ts,
    clicked (snd (switchToVideosTab url setTimeout w)) = (clicked w ++ cs)%list /\
    timers (snd (switchToVideosTab url setTimeout w)) = (timers w ++ ts)%list /\
    (List.length cs + List.length ts <= 1)%nat.
Proof.
  destruct (isChannelMainPage url) eqn:Hc;
    [destruct (isOnVideosTab url) eqn:Hv|].
  - rewrite (switchToVideosTab_ineligible url setTimeout w) by auto.
    exists [], []. simpl. rewrite !app_nil_r. auto.
  - destruct (firstMatch w selectors) as [t|] eqn:E.
    + rewrite (switchToVideosTab_eligible_present url setTimeout w t Hc Hv E).
      exists [t], []. simpl. rewrite app_nil_r. auto.
    + apply firstMatch_None in E.
      rewrite (switchToVideosTab_eligible_absent url setTimeout w Hc Hv E).
      exists [], [(RetryCallback url, 500%Z)]. simpl. rewrite app_nil_r. auto.
  - rewrite (switchToVideosTab_ineligible url setTimeout w) by auto.
    exists [], []. simpl. rewrite !app_nil_r. auto.
Qed.

Lemma handleUrlChange_cases (obs : Observer) (w : World) :
  (location_href w = lastUrl obs /\ handleUrlChange obs w = (obs, w)) \/
  (location_href w <> lastUrl obs /\
   handleUrlChange obs w =
   (mkObserver (location_href w) (location_href w :: acted obs),
    snd (switchToVideosTab
           (location_href w) setTimeout
           (snd (console_log
                   ["[YouTube Videos Tab] URL changed:"; location_href w] w))))).
Proof.
  destruct (string_dec (location_href w) (lastUrl obs)) as [E | N].
  - left. split; [exact E | now apply handleUrlChange_unchanged].
  - right. split; [exact N|].
    now rewrite (handleUrlChange_changed obs w N), callSwitchToVideosTab_result.
Qed.

End ObserverFacts.

Import ObserverFacts.

(** A page whose address is a rewritten one sets nothing off, whichever
    instance of the script looks at it: one that attaches on that page
    (as after the full navigation of the fallback, with or without a
    body), or the observer of a running one, whatever it had recorded.
    Nothing is clicked, nothing is scheduled, the location is not
    assigned, and the observer ends with the rewritten address as the
    last observed one. *)
Theorem rewritten_address_sets_nothing_off
        (url : string) (body : option Element) (obs : Observer) (w : World) :
  location_href w = getVideosUrl url ->
  (clicked (snd (attach body w)) = clicked w /\
   timers (snd (attach body w)) = timers w /\
   location_href (snd (attach body w)) = getVideosUrl url /\
   forall o, fst (attach body w) = Some o -> lastUrl o = getVideosUrl url) /\
  (clicked (snd (handleUrlChange obs w)) = clicked w /\
   timers (snd (handleUrlChange obs w)) = timers w /\
   location_href (snd (handleUrlChange obs w)) = getVideosUrl url /\
   lastUrl (fst (handleUrlChange obs w)) = getVideosUrl url).
Proof.
  intros L.
  assert (I : forall v,
             switchToVideosTab (location_href w) setTimeout v = (tt, v)).
  { intros v. apply switchToVideosTab_ineligible.
    right. rewrite L. apply isOnVideosTab_getVideosUrl. }
  split.
  - destruct body as [b|].
    + rewrite attach_result, I. cbn. rewrite L.
      repeat split. intros o H. now injection H as <-.
    + rewrite attach_throws, I. cbn. rewrite L.
      repeat split. intros o H. discriminate.
  - destruct (handleUrlChange_cases obs w) as [[E ->] | [N ->]].
    + cbn. rewrite <- E. repeat split; exact L.
    + rewrite I. cbn. repeat split; exact L.
Qed.

Lemma rewritten_address_sets_nothing_off_witness :
  location_href (pageWithTab "https://www.youtube.com/@mkbhd/videos") =
    getVideosUrl "https://www.youtube.com/@mkbhd" /\
  clicked (snd (attach (Some bodyElement)
                       (pageWithTab "https://www.youtube.com/@mkbhd/videos"))) =
    clicked (pageWithTab "https://www.youtube.com/@mkbhd/videos") /\
  timers (snd (handleUrlChange
                 (mkObserver "https://www.youtube.com/@mkbhd" [])
                 (pageWithTab "https://www.youtube.com/@mkbhd/videos"))) =
    timers (pageWithTab "https://www.youtube.com/@mkbhd/videos").
Proof.
  split; [reflexivity|]. split.
  - apply (rewritten_address_sets_nothing_off
             "https://www.youtube.com/@mkbhd" (Some bodyElement)
             (mkObserver "https://www.youtube.com/@mkbhd" [])
             (pageWithTab "https://www.youtube.com/@mkbhd/videos")).
    reflexivity.
  - apply (rewritten_address_sets_nothing_off
             "https://www.youtube.com/@mkbhd" (Some bodyElement)
             (mkObserver "https://www.youtube.com/@mkbhd" [])
             (pageWithTab "https://www.youtube.com/@mkbhd/videos")).
    reflexivity.
Defined.

(** Neither a notification nor the attach, with or without a body,
    assigns the location or changes the document.  A notification adds
    at most one thing to the page, a click or a timer, and removes none
    (a timer is never cancelled); so does the attach.  A notification
    that comes right after an attach that registered the observer does
    nothing. *)
Theorem observer_effects (obs : Observer) (body : option Element) (w : World) :
  location_href (snd (handleUrlChange obs w)) = location_href w /\
  querySelector (snd (handleUrlChange obs w)) = querySelector w /\
  location_href (snd (attach body w)) = location_href w /\
  querySelector (snd (attach body w)) = querySelector w /\
  (exists cs ts,
      clicked (snd (handleUrlChange obs w)) = (clicked w ++ cs)%list /\
      timers (snd (handleUrlChange obs w)) = (timers w ++ ts)%list /\
      (List.length cs + List.length ts <= 1)%nat) /\
  (exists cs ts,
      clicked (snd (attach body w)) = (clicked w ++ cs)%list /\
      timers (snd (attach body w)) = (timers w ++ ts)%list /\
      (List.length cs + List.length ts <= 1)%nat) /\
  (forall o w1,
      attach body w = (Some o, w1) -> handleUrlChange o w1 = (o, w1)).
Proof.
  assert (Q : forall url v,
             querySelector (snd (switchToVideosTab url setTimeout v)) =
             querySelector v).
  { intros url v.
    destruct (isChannelMainPage url) eqn:Hc;
      [destruct (isOnVideosTab url) eqn:Hv|].
    - now rewrite (switchToVideosTab_ineligible url setTimeout v) by auto.
    - destruct (firstMatch v selectors) as [t|] eqn:E.
      + now rewrite (switchToVideosTab_eligible_present url setTimeout v t Hc Hv E).
      + apply firstMatch_None in E.
        now rewrite (switchToVideosTab_eligible_absent url setTimeout v Hc Hv E).
    - now rewrite (switchToVideosTab_ineligible url setTimeout v) by auto. }
  assert (A : location_href (snd (attach body w)) = location_href w).
  { destruct body; [rewrite attach_result | rewrite attach_throws];
      cbn; apply switchToVideosTab_location. }
  split; [|split; [|split; [exact A | split; [|split; [|split]]]]].
  - destruct (handleUrlChange_cases obs w) as [[_ ->] | [_ ->]]; [reflexivity|].
    simpl. now rewrite switchToVideosTab_location.
  - destruct (handleUrlChange_cases obs w) as [[_ ->] | [_ ->]]; [reflexivity|].
    simpl. now rewrite Q.
  - destruct body; [rewrite attach_result | rewrite attach_throws];
      cbn; apply Q.
  - destruct (handleUrlChange_cases obs w) as [[_ ->] | [_ ->]].
    + exists [], []. simpl. rewrite !app_nil_r. auto.
    + cbn [snd].
      destruct (switchToVideosTab_growth
                  (location_href w)
                  (snd (console_log
                          ["[YouTube Videos Tab] URL changed:"; location_href w] w)))
        as (cs & ts & Hcs & Hts & Hl).
      exists cs, ts. rewrite Hcs, Hts. auto.
  - destruct (switchToVideosTab_growth (location_href w) w)
      as (cs & ts & Hcs & Hts & Hl).
    exists cs, ts.
    destruct body; [rewrite attach_result | rewrite attach_throws];
      cbn; rewrite Hcs, Hts; auto.
  - intros o w1 H. apply handleUrlChange_unchanged.
    rewrite (attach_registered body w w1 o H).
    apply (f_equal snd) in H. cbn [snd] in H. rewrite <- H. exact A.
Qed.

(** In every state the observer can reach, the history of the calls of
    the orchestrator holds no address twice in a row: the same address
    is never acted upon two times running. *)
Theorem acted_never_repeats (obs : Observer) (w : World) :
  Reachable obs w -> adjacentDistinct (acted obs) = true.
Proof.
  intros R.
  assert (I : hd_error (acted obs) = Some (lastUrl obs) /\
              adjacentDistinct (acted obs) = true).
  { induction R as [body w0 obs w1 A | obs w w' _ IH | obs w _ IH].
    - rewrite (attach_registered body w0 w1 obs A). split; reflexivity.
    - exact IH.
    - destruct IH as [H D].
      destruct (handleUrlChange_cases obs w) as [[_ ->] | [N ->]];
        [split; assumption|].
      split; [reflexivity|]. cbn [fst acted].
      destruct (acted obs) as [|y rest] eqn:E; [discriminate|].
      injection H as ->. cbn [adjacentDistinct].
      apply String.eqb_neq in N. rewrite N. simpl.
      exact D. }
  exact (proj2 I).
Qed.

Lemma acted_never_repeats_witness :
  Reachable
    (fst (handleUrlChange
            (mkObserver "https://www.youtube.com/@mkbhd"
                        ["https://www.youtube.com/@mkbhd"])
            (blankPage "https://www.youtube.com/watch?v=dQw4w9WgXcQ")))
    (snd (handleUrlChange
            (mkObserver "https://www.youtube.com/@mkbhd"
                        ["https://www.youtube.com/@mkbhd"])
            (blankPage "https://www.youtube.com/watch?v=dQw4w9WgXcQ"))) /\
  adjacentDistinct
    (acted (fst (handleUrlChange
                   (mkObserver "https://www.youtube.com/@mkbhd"
                               ["https://www.youtube.com/@mkbhd"])
                   (blankPage "https://www.youtube.com/watch?v=dQw4w9WgXcQ")))) =
    true.
Proof.
  assert (R : Reachable
                (mkObserver "https://www.youtube.com/@mkbhd"
                            ["https://www.youtube.com/@mkbhd"])
                (blankPage "https://www.youtube.com/watch?v=dQw4w9WgXcQ")).
  { apply (ReachEnvironment _
             (snd (attach (Some bodyElement)
                          (blankPage "https://www.youtube.com/@mkbhd")))).
    apply (ReachAttach (Some bodyElement)
                       (blankPage "https://www.youtube.com/@mkbhd")).
    reflexivity. }
  split.
  - apply ReachNotify, R.
  - apply (acted_never_repeats _ _ (ReachNotify _ _ R)).
Defined.

(** ** More on the two predicates and the rewriter *)

Module AddressFacts.
Import StrFacts ClassifierFacts.

(** A string either holds no [c], or splits at its last [c]. *)
Lemma split_at_last (c : ascii) (s : string) :
  Str.lacks c s = true \/
  exists a b, s = a ++ String c b /\ Str.lacks c b = true.
Proof.
  induction s as [|d s IH]; [left; reflexivity|].
  destruct IH as [L | (a & b & -> & L)].
  - destruct (Ascii.eqb_spec d c) as [-> | N].
    + right. exists "", s. auto.
    + left. simpl. rewrite L.
      destruct (Ascii.eqb_spec d c); [contradiction | reflexivity].
  - right. exists (String d a), b. auto.
Qed.

Lemma lacks_lastChar (c : ascii) (s : string) :
  Str.lacks c s = true -> Str.lastChar s <> Some c.
Proof.
  induction s as [|d s IH]; [discriminate|].
  simpl. intros H. apply andb_true_iff in H as [N L].
  destruct s as [|e s].
  - intros E. injection E as ->. now rewrite Ascii.eqb_refl in N.
  - now apply IH.
Qed.

Lemma includes_context (s needle pre post : string) :
  Str.includes s needle = true ->
  Str.includes (pre ++ s ++ post) needle = true.
Proof.
  rewrite !includes_spec. intros (a & b & ->).
  exists (pre ++ a), (b ++ post). now rewrite !append_assoc.
Qed.

(** [/videos] in an address that ends with a slash and a segment: it
    is in the front part, or the segment begins with [videos]. *)
Lemma includes_videos_segment (x seg : string) :
  Str.lacks "/" seg = true ->
  Str.includes (x ++ "/" ++ seg) "/videos" =
  Str.includes x "/videos" || prefix "videos" seg.
Proof.
  intros Ls.
  destruct (Str.includes x "/videos" || prefix "videos" seg) eqn:R.
  - apply orb_true_iff in R as [R | R].
    + rewrite <- (append_nil_r x) in R.
      apply (includes_context _ _ "" ("/" ++ seg)) in R.
      simpl in R. now rewrite append_nil_r in R.
    + apply prefix_spec in R as [r ->]. apply includes_spec.
      exists x, r. reflexivity.
  - apply orb_false_iff in R as [Rx Rs].
    destruct (Str.includes (x ++ "/" ++ seg) "/videos") eqn:I; [|reflexivity].
    exfalso. apply includes_spec in I as (p & q & E).
    destruct (split_at_last "/" q) as [Lq | (q1 & q2 & -> & Lq)].
    + change (p ++ "/videos" ++ q) with (p ++ String "/" ("videos" ++ q)) in E.
      change (x ++ "/" ++ seg) with (x ++ String "/" seg) in E.
      apply last_segment_unique in E as [_ ->]; [| exact Ls | exact Lq].
      assert (P : prefix "videos" ("videos" ++ q) = true)
        by (apply prefix_spec; now exists q).
      congruence.
    + replace (p ++ "/videos" ++ q1 ++ String "/" q2)
        with ((p ++ "/videos" ++ q1) ++ String "/" q2) in E
        by now rewrite !append_assoc.
      change (x ++ "/" ++ seg) with (x ++ String "/" seg) in E.
      apply last_segment_unique in E as [-> _]; [| exact Ls | exact Lq].
      assert (P : Str.includes (p ++ "/videos" ++ q1) "/videos" = true)
        by (apply includes_spec; now exists p, q1).
      congruence.
Qed.

End AddressFacts.

Import AddressFacts.

(** What surrounds a channel address does not count: the classifier
    still accepts it with any text put before it, and with any text
    without slash (a query string, a fragment) put after it. *)
Theorem isChannelMainPage_ignores_context (pre url tail : string) :
  isChannelMainPage url = true -> Str.lacks "/" tail = true ->
  isChannelMainPage (pre ++ url ++ tail) = true.
Proof.
  intros H Lt. apply isChannelMainPage_spec in H as (p & style & id & -> & S & I).
  apply isChannelMainPage_spec. exists (pre ++ p), style, (id ++ tail).
  split; [now rewrite !append_assoc|]. split; [exact S|].
  apply isIdentifier_spec in I as [N L]. apply isIdentifier_spec. split.
  - destruct id; [contradiction | discriminate].
  - now rewrite lacks_append, L, Lt.
Qed.

Lemma isChannelMainPage_ignores_context_witness :
  isChannelMainPage "youtube.com/@mkbhd" = true /\
  Str.lacks "/" "?si=abc#top" = true /\
  isChannelMainPage
    ("https://example.org/r?u=" ++ "youtube.com/@mkbhd" ++ "?si=abc#top") = true.
Proof.
  split; [reflexivity|]. split; [reflexivity|].
  apply (isChannelMainPage_ignores_context
           "https://example.org/r?u=" "youtube.com/@mkbhd" "?si=abc#top");
    reflexivity.
Defined.

(** The classifier rejects every address that ends with a slash and
    every address shorter than 14 characters; 14 is reached. *)
Theorem isChannelMainPage_rejects_short_or_slashed :
  (forall url : string, isChannelMainPage (url ++ "/") = false) /\
  (forall url : string,
      (length url < 14)%nat -> isChannelMainPage url = false) /\
  (length "youtube.com/@x" = 14%nat /\ isChannelMainPage "youtube.com/@x" = true).
Proof.
  split; [|split; [|split; reflexivity]].
  - intros url. destruct (isChannelMainPage (url ++ "/")) eqn:E; [|reflexivity].
    exfalso. apply isChannelMainPage_spec in E as (p & style & id & E & _ & I).
    apply isIdentifier_spec in I as [N L].
    apply (f_equal Str.lastChar) in E.
    replace (p ++ "youtube.com/" ++ style ++ id)
      with ((p ++ "youtube.com/" ++ style) ++ id) in E
      by now rewrite !append_assoc.
    rewrite !lastChar_append in E by (assumption || discriminate).
    simpl in E. symmetry in E. now apply lacks_lastChar in E.
  - intros url Hl. destruct (isChannelMainPage url) eqn:E; [|reflexivity].
    exfalso. apply isChannelMainPage_spec in E as (p & style & id & -> & S & I).
    apply isIdentifier_spec in I as [N _].
    rewrite !append_length in Hl.
    assert (1 <= length id)%nat by (destruct id; [contradiction | simpl; lia]).
    assert (1 <= length style)%nat
      by (apply style_cases in S as [-> | [-> | [-> | ->]]]; simpl; lia).
    simpl in Hl. lia.
Qed.

Lemma isChannelMainPage_rejects_short_or_slashed_witness :
  (length "youtube.com/@" < 14)%nat /\
  isChannelMainPage "youtube.com/@" = false.
Proof.
  split; [simpl; lia|].
  apply (proj1 (proj2 isChannelMainPage_rejects_short_or_slashed)).
  simpl; lia.
Defined.

(** Channel addresses and the substring test.  On a root in which
    [/videos] does not occur, a handle address is never taken for the
    Videos tab, and an address of the three other styles is taken for
    it exactly when its identifier begins with [videos]. *)
Theorem isOnVideosTab_channel_addresses (root id : string) :
  isOnVideosTab root = false -> isIdentifier id = true ->
  isOnVideosTab (root ++ "/@" ++ id) = false /\
  isOnVideosTab (root ++ "/c/" ++ id) = prefix "videos" id /\
  isOnVideosTab (root ++ "/channel/" ++ id) = prefix "videos" id /\
  isOnVideosTab (root ++ "/user/" ++ id) = prefix "videos" id.
Proof.
  unfold isOnVideosTab. intros Hr I. apply isIdentifier_spec in I as [_ L].
  split; [|split; [|split]].
  - change (root ++ "/@" ++ id) with (root ++ "/" ++ String "@" id).
    rewrite includes_videos_segment by exact L. now rewrite Hr.
  - replace (root ++ "/c/" ++ id) with ((root ++ "/" ++ "c") ++ "/" ++ id)
      by now rewrite !append_assoc.
    rewrite includes_videos_segment by exact L.
    rewrite includes_videos_segment by reflexivity. now rewrite Hr.
  - replace (root ++ "/channel/" ++ id)
      with ((root ++ "/" ++ "channel") ++ "/" ++ id)
      by now rewrite !append_assoc.
    rewrite includes_videos_segment by exact L.
    rewrite includes_videos_segment by reflexivity. now rewrite Hr.
  - replace (root ++ "/user/" ++ id)
      with ((root ++ "/" ++ "user") ++ "/" ++ id)
      by now rewrite !append_assoc.
    rewrite includes_videos_segment by exact L.
    rewrite includes_videos_segment by reflexivity. now rewrite Hr.
Qed.

Lemma isOnVideosTab_channel_addresses_witness :
  isOnVideosTab "https://www.youtube.com" = false /\
  isIdentifier "videosgames" = true /\
  isOnVideosTab ("https://www.youtube.com" ++ "/@" ++ "videosgames") = false /\
  isOnVideosTab ("https://www.youtube.com" ++ "/c/" ++ "videosgames") =
    prefix "videos" "videosgames".
Proof.
  split; [reflexivity|]. split; [reflexivity|].
  split; apply (isOnVideosTab_channel_addresses
                  "https://www.youtube.com" "videosgames"); reflexivity.
Defined.

(** With the platform's scheduler, [switchToVideosTab] leaves the page
    exactly as it was if and only if the address is not eligible: the
    classifier rejects it or [/videos] occurs in it. *)
Theorem switchToVideosTab_idle_iff_ineligible (url : string) (w : World) :
  snd (switchToVideosTab url setTimeout w) = w <->
  (isChannelMainPage url = false \/ isOnVideosTab url = true).
Proof.
  split.
  - intros H. destruct (isChannelMainPage url) eqn:Hc; [|auto].
    destruct (isOnVideosTab url) eqn:Hv; [auto|]. exfalso.
    apply (f_equal (fun v => List.length (console v))) in H.
    destruct (firstMatch w selectors) as [t|] eqn:E.
    + rewrite (switchToVideosTab_eligible_present url setTimeout w t Hc Hv E) in H.
      simpl in H. rewrite !length_app in H. simpl in H. lia.
    + apply firstMatch_None in E.
      rewrite (switchToVideosTab_eligible_absent url setTimeout w Hc Hv E) in H.
      simpl in H. rewrite !length_app in H. simpl in H. lia.
  - intros H. now rewrite (switchToVideosTab_ineligible url setTimeout w H).
Qed.

(** [isOnVideosTab] looks at any part of the address: once true it
    stays true with any text put before or after; and it is false on
    every address shorter than the 7 characters of [/videos]. *)
Theorem isOnVideosTab_monotone :
  (forall pre url post : string,
      isOnVideosTab url = true -> isOnVideosTab (pre ++ url ++ post) = true) /\
  (forall url : string, (length url < 7)%nat -> isOnVideosTab url = false).
Proof.
  split.
  - intros pre url post. apply includes_context.
  - intros url Hl. destruct (isOnVideosTab url) eqn:E; [|reflexivity].
    exfalso. apply includes_spec in E as (a & b & ->).
    rewrite !append_length in Hl. simpl in Hl. lia.
Qed.

Lemma isOnVideosTab_monotone_witness :
  isOnVideosTab "/videos" = true /\
  isOnVideosTab ("https://www.youtube.com/@mkbhd" ++ "/videos" ++ "?view=0") = true.
Proof.
  split; [reflexivity|].
  apply (proj1 isOnVideosTab_monotone
           "https://www.youtube.com/@mkbhd" "/videos" "?view=0").
  reflexivity.
Defined.

(** [getVideosUrl] is one-to-one, its result always ends in [/videos],
    and it is not idempotent: a second application appends a second
    [/videos]. *)
Theorem getVideosUrl_injective :
  (forall a b : string, getVideosUrl a = getVideosUrl b -> a = b) /\
  (forall a : string, Str.endsWith (getVideosUrl a) "/videos" = true) /\
  (forall a : string,
      getVideosUrl (getVideosUrl a) = a ++ "/videos/videos" /\
      getVideosUrl (getVideosUrl a) <> getVideosUrl a).
Proof.
  split; [|split].
  - intros a b H. unfold getVideosUrl in H.
    now apply append_inj_r in H as [-> _].
  - intros a. apply endsWith_spec. now exists a.
  - intros a. unfold getVideosUrl. split; [now rewrite append_assoc|].
    intros H. apply (f_equal length) in H.
    rewrite !append_length in H. simpl in H. lia.
Qed.

Lemma getVideosUrl_injective_witness :
  getVideosUrl "https://www.youtube.com/@mkbhd" =
    getVideosUrl ("https://www.youtube.com" ++ "/@mkbhd") /\
  "https://www.youtube.com/@mkbhd" = "https://www.youtube.com" ++ "/@mkbhd".
Proof.
  split; [reflexivity|].
  apply (proj1 getVideosUrl_injective). reflexivity.
Defined.

(** [navigateToVideosTab], for any address and in any page: the
    location becomes the address followed by [/videos], one line that
    names the new address is logged, clicks, timers and document are
    untouched; and the orchestrator called on the new location, with
    any scheduler, does nothing. *)
Theorem navigateToVideosTab_then_idle (url : string) (w : World) :
  location_href (snd (navigateToVideosTab url w)) = url ++ "/videos" /\
  console (snd (navigateToVideosTab url w)) =
    (console w ++
     [["[YouTube Videos Tab] Navigated to:"; (url ++ "/videos")%string]])%list /\
  clicked (snd (navigateToVideosTab url w)) = clicked w /\
  timers (snd (navigateToVideosTab url w)) = timers w /\
  querySelector (snd (navigateToVideosTab url w)) = querySelector w /\
  (forall sched : Scheduler,
      switchToVideosTab (location_href (snd (navigateToVideosTab url w))) sched
                        (snd (navigateToVideosTab url w)) =
      (tt, snd (navigateToVideosTab url w))).
Proof.
  repeat split. intros sched. apply switchToVideosTab_ineligible.
  right. apply isOnVideosTab_getVideosUrl.
Qed.

(** The attach.  With a body in the document, the observer is
    registered with the address of the page as the last observed one
    and the only one acted upon, and the last line logged is the one of
    the initialisation.  Without a body, [observe] throws: no observer
    is registered and the script stops right after the initial pass,
    the initialisation line is not logged.  Either way the initial pass
    is made: on an address that is not eligible nothing is clicked or
    scheduled; on an eligible one the Videos tab is clicked when the
    page has one, and the retry callback of the address is scheduled
    with 500 ms when it has none. *)
Theorem attach_initial_pass (w : World) :
  (forall b : Element,
      fst (attach (Some b) w) =
        Some (mkObserver (location_href w) [location_href w]) /\
      last (console (snd (attach (Some b) w))) [] =
        ["[YouTube Videos Tab] Extension initialized"]) /\
  (fst (attach None w) = None /\
   snd (attach None w) =
     snd (switchToVideosTab (location_href w) setTimeout w)) /\
  (forall body : option Element,
      isChannelMainPage (location_href w) = false \/
      isOnVideosTab (location_href w) = true ->
      clicked (snd (attach body w)) = clicked w /\
      timers (snd (attach body w)) = timers w) /\
  (forall body : option Element,
      isChannelMainPage (location_href w) = true ->
      isOnVideosTab (location_href w) = false ->
      forall t, firstMatch w selectors = Some t ->
      clicked (snd (attach body w)) = (clicked w ++ [t])%list /\
      timers (snd (attach body w)) = timers w) /\
  (forall body : option Element,
      isChannelMainPage (location_href w) = true ->
      isOnVideosTab (location_href w) = false ->
      videosTabPresent w = false ->
      clicked (snd (attach body w)) = clicked w /\
      timers (snd (attach body w)) =
        (timers w ++ [(RetryCallback (location_href w), 500%Z)])%list).
Proof.
  split; [|split; [|split; [|split]]].
  - intros b. rewrite attach_result. cbn [fst snd console_log console].
    split; [reflexivity | apply last_last].
  - rewrite attach_throws. split; reflexivity.
  - intros body H.
    destruct body; [rewrite attach_result | rewrite attach_throws];
      now rewrite (switchToVideosTab_ineligible _ setTimeout w H).
  - intros body Hc Hv t E.
    destruct body; [rewrite attach_result | rewrite attach_throws];
      now rewrite (switchToVideosTab_eligible_present _ setTimeout w t Hc Hv E).
  - intros body Hc Hv E.
    destruct body; [rewrite attach_result | rewrite attach_throws];
      now rewrite (switchToVideosTab_eligible_absent _ setTimeout w Hc Hv E).
Qed.

Lemma attach_initial_pass_witness :
  isChannelMainPage (location_href (blankPage "https://www.youtube.com/c/LinusTechTips")) = true /\
  isOnVideosTab (location_href (blankPage "https://www.youtube.com/c/LinusTechTips")) = false /\
  videosTabPresent (blankPage "https://www.youtube.com/c/LinusTechTips") = false /\
  clicked (snd (attach None (blankPage "https://www.youtube.com/c/LinusTechTips"))) =
    clicked (blankPage "https://www.youtube.com/c/LinusTechTips") /\
  timers (snd (attach None (blankPage "https://www.youtube.com/c/LinusTechTips"))) =
    (timers (blankPage "https://www.youtube.com/c/LinusTechTips") ++
     [(RetryCallback
         (location_href (blankPage "https://www.youtube.com/c/LinusTechTips")),
       500%Z)])%list.
Proof.
  split; [reflexivity|]. split; [reflexivity|]. split; [reflexivity|].
  apply (proj2 (proj2 (proj2 (proj2
           (attach_initial_pass
              (blankPage "https://www.youtube.com/c/LinusTechTips")))))
           None);
    reflexivity.
Defined.
